(** * Trading-game simulation kernel: a shallow embedding and its properties

    The file embeds [src/trading_simulation.py]: the candle generator, the
    liquidation risk model, the four player strategies and the round loop.

    Numbers.  Python floats are read as real numbers ([R]): every result
    below is about the exact arithmetic the program approximates, and says
    nothing on rounding.  Candle indices, durations and counters are Python
    ints ([Z]).

    Effects.  The program draws from Python's global [random] stream.  The
    stream is the only state threaded through the functions; it is kept
    abstract behind [RandomSource], the interface of the calls the program
    makes ([random.seed], [random.random], [random.randint],
    [random.choice], [random.choices]).  A Python exception ([IndexError],
    [ZeroDivisionError], [ValueError], [KeyError]) is the result [None]. *)

From Stdlib Require Import Reals Lra Lia ZArith Bool String List.
Import ListNotations.
Open Scope R_scope.

(** ** Comparisons on reals as booleans *)

Definition Rltb (x y : R) : bool := if Rlt_dec x y then true else false.
Definition Rleb (x y : R) : bool := if Rle_dec x y then true else false.
Definition Reqb (x y : R) : bool := if Req_dec_T x y then true else false.

(** ** The random stream

    [rng] is the state of Python's global generator.  [rng_seed n] is the
    state after [random.seed(n)], a function of [n] alone.  [rng_randint]
    fails on an empty range and [rng_choice], [rng_choices] on an empty
    population, as the library raises there. *)

Class RandomSource : Type := {
  rng : Type;
  rng_seed : Z -> rng;
  rng_random : rng -> R * rng;
  rng_randint : Z -> Z -> rng -> option (Z * rng);
  rng_choice : list Z -> rng -> option (Z * rng);
  rng_choices : list Z -> list Z -> rng -> option (Z * rng)
}.

(** What the library documents about the draws. *)
Class RandomLaws (RS : RandomSource) : Prop := {
  random_unit : forall g, 0 <= fst (rng_random g) < 1;
  randint_total : forall a b g, (a <= b)%Z -> exists n g', rng_randint a b g = Some (n, g');
  randint_range : forall a b g n g', rng_randint a b g = Some (n, g') -> (a <= n <= b)%Z;
  choice_total : forall x l g, exists y g', rng_choice (x :: l) g = Some (y, g');
  choice_in : forall l g y g', rng_choice l g = Some (y, g') -> In y l;
  choices_total : forall x l w g, exists y g', rng_choices (x :: l) w g = Some (y, g');
  choices_in : forall l w g y g', rng_choices l w g = Some (y, g') -> In y l
}.

(** ** State and error monad over the random stream *)

Section Monad.
Context {RS : RandomSource}.

Definition M (A : Type) : Type := rng -> option (A * rng).

Definition ret {A} (a : A) : M A := fun g => Some (a, g).

Definition bind {A B} (m : M A) (k : A -> M B) : M B :=
  fun g => match m g with
           | Some (a, g') => k a g'
           | None => None
           end.

Definition raise {A} : M A := fun _ => None.

End Monad.

Notation "x <- m ;; k" := (bind m (fun x => k))
  (at level 61, m at next level, right associativity).
Notation "' pat <- m ;; k" := (bind m (fun x => match x with pat => k end))
  (at level 61, pat pattern, m at next level, right associativity).

Section Kernel.
Context {RS : RandomSource}.

(** [random.random()] *)
Definition random : M R := fun g => Some (rng_random g).

(** [random.seed(n)] *)
Definition seed (n : Z) : M unit := fun _ => Some (tt, rng_seed n).

Definition randint (a b : Z) : M Z := rng_randint a b.
Definition choice (l : list Z) : M Z := rng_choice l.
Definition choices (population weights : list Z) : M Z := rng_choices population weights.

(** [a / b] with [ZeroDivisionError] *)
Definition pdiv (a b : R) : M R :=
  if Reqb b 0 then raise else ret (a / b).

(** ** TradingGameSimulator: constants *)

Definition ROUND_DURATION_CANDLES : Z := 470.
Definition GRACE_PERIOD_CANDLES : Z := 150.
Definition RAMP_UP_PERIOD : Z := 75.
Definition TRADING_FEE_RATE : R := 0.002.
Definition POSITION_SIZE_RATIO : R := 0.2.

(** ** calculate_liquidation_probability *)

(** An optional argument tested as [x and x > t]: [None] and [0] are falsy. *)
Definition truthy_gt (x : option R) (t : R) : bool :=
  match x with
  | Some v => negb (Reqb v 0) && Rltb t v
  | None => false
  end.

Definition opt_val (x : option R) : R :=
  match x with Some v => v | None => 0 end.

Definition base_chance (candle_num : Z) : R :=
  let candles_since_grace := (candle_num - GRACE_PERIOD_CANDLES)%Z in
  if (candles_since_grace <? RAMP_UP_PERIOD)%Z then
    let ramp_multiplier := IZR candles_since_grace / IZR RAMP_UP_PERIOD in
    0.0003 * ramp_multiplier
  else 0.0003.

Definition time_risk (position_duration : Z) : R :=
  Rmin 0.004 (Rpower ((IZR position_duration - 60) / 200) 1.8 * 0.006).

Definition size_risk (position_size_ratio : R) : R :=
  Rmin 0.0005 ((position_size_ratio - 0.7) * 0.0005).

Definition greed_risk (pnl_percent : R) : R :=
  Rmin 0.0008 ((pnl_percent - 0.3) * 0.001).

(** [total_risk] as it stands just before the random multiplier, for a
    candle at or after the grace period. *)
Definition composed_risk (candle_num : Z) (position_duration : option Z)
    (position_size_ratio pnl_percent : option R) : R :=
  let total_risk := base_chance candle_num in
  match position_duration with
  | None => total_risk
  | Some d =>
      let total_risk :=
        if (60 <? d)%Z then total_risk + time_risk d else total_risk in
      let total_risk :=
        if truthy_gt position_size_ratio 0.7
        then total_risk + size_risk (opt_val position_size_ratio) else total_risk in
      let total_risk :=
        if truthy_gt pnl_percent 0.3
        then total_risk + greed_risk (opt_val pnl_percent) else total_risk in
      total_risk
  end.

Definition calculate_liquidation_probability (candle_num : Z)
    (position_duration : option Z) (position_size_ratio pnl_percent : option R) : M R :=
  if (candle_num <? GRACE_PERIOD_CANDLES)%Z then ret 0
  else
    let total_risk :=
      composed_risk candle_num position_duration position_size_ratio pnl_percent in
    total_risk <-
      (if (GRACE_PERIOD_CANDLES <=? candle_num)%Z then
         u <- random ;;
         let random_multiplier := 0.7 + u * 0.8 in
         ret (total_risk * random_multiplier)
       else ret total_risk) ;;
    ret (Rmin 0.01 total_risk).

Definition check_liquidation (candle_num : Z)
    (position_duration : option Z) (position_size_ratio pnl_percent : option R) : M bool :=
  prob <- calculate_liquidation_probability candle_num position_duration
            position_size_ratio pnl_percent ;;
  u <- random ;;
  ret (Rltb u prob).

(** ** Python lists *)

(** [l[i]]: a negative index counts from the end, [IndexError] is [None]. *)
Definition py_index {A} (l : list A) (i : Z) : option A :=
  let n := Z.of_nat (length l) in
  if (i <? - n)%Z then None
  else if (i <? 0)%Z then nth_error l (Z.to_nat (n + i))
  else nth_error l (Z.to_nat i).

(** [range(lo, hi)] *)
Definition zrange (lo hi : Z) : list Z :=
  map (fun k => (lo + Z.of_nat k)%Z) (seq 0 (Z.to_nat (hi - lo))).

Definition len {A} (l : list A) : Z := Z.of_nat (length l).

Fixpoint mapM {A B} (f : A -> M B) (l : list A) : M (list B) :=
  match l with
  | [] => ret []
  | x :: rest => y <- f x ;; ys <- mapM f rest ;; ret (y :: ys)
  end.

(** [max(...)] of a sequence, [ValueError] when it is empty *)
Definition py_max (l : list R) : M R :=
  match l with
  | [] => raise
  | x :: rest => ret (fold_left Rmax rest x)
  end.

(** ** generate_realistic_price_data *)

Record Candle : Type := {
  candle : Z;
  open : R;
  high : R;
  low : R;
  close : R
}.

(** [math.copysign(1, x)] on reals *)
Definition copysign1 (x : R) : R := if Rltb x 0 then -1 else 1.

(** The parameters drawn before the loop. *)
Record Waves : Type := {
  base_period : R; medium_period : R; short_period : R;
  base_phase : R; medium_phase : R; short_phase : R
}.

(** One iteration of the candle loop at index [i] with current [price]. *)
Definition generate_candle (w : Waves) (i : Z) (price : R) : M Candle :=
  a <- pdiv (IZR i * 2 * PI) (base_period w) ;;
  let base_trend := sin (a + base_phase w) * 0.15 in
  a <- pdiv (IZR i * 2 * PI) (medium_period w) ;;
  let medium_trend := sin (a + medium_phase w) * 0.08 in
  a <- pdiv (IZR i * 2 * PI) (short_period w) ;;
  let short_trend := sin (a + short_phase w) * 0.04 in
  let trend_wave := base_trend + medium_trend + short_trend in
  u <- random ;;
  let volatility := 0.02 + u * 0.06 in
  direction <- choice [(-1)%Z; 1%Z] ;;
  u <- random ;;
  let random_factor := (u - 0.5) * 2 in
  let final_direction := IZR direction + trend_wave + random_factor * 0.3 in
  let move := price * volatility * copysign1 final_direction in
  let open_price := price in
  u <- random ;;
  let close_price := Rmax 0.01 (open_price + move * (0.5 + u * 0.5)) in
  u <- random ;;
  let wick_multiplier := 0.3 + u * 0.4 in
  u <- random ;;
  let high_price := Rmax open_price close_price + Rabs move * wick_multiplier * u in
  u <- random ;;
  let low_price := Rmin open_price close_price - Rabs move * wick_multiplier * u in
  let low_price := Rmax 0.01 low_price in
  ret {| candle := i; open := open_price; high := high_price;
         low := low_price; close := close_price |}.

(** The loop [for i in range(ROUND_DURATION_CANDLES)], [data] in order. *)
Fixpoint generate_candles (w : Waves) (indices : list Z) (price : R) : M (list Candle) :=
  match indices with
  | [] => ret []
  | i :: rest =>
      c <- generate_candle w i price ;;
      data <- generate_candles w rest (close c) ;;
      ret (c :: data)
  end.

(** [np.random.seed(n)]: numpy takes a seed from 0 to 2^32 - 1 and raises
    [ValueError] for any other integer.  Nothing here draws from numpy's
    stream, so the call leaves the state alone when it returns. *)
Definition np_random_seed (n : Z) : M unit :=
  if (0 <=? n)%Z && (n <=? 4294967295)%Z then ret tt else raise.

(** [seed_arg] is [None] when the argument is omitted; [if seed:] is false
    for [None] and for [0]. *)
Definition generate_realistic_price_data (seed_arg : option Z) : M (list Candle) :=
  _ <- (match seed_arg with
        | Some n =>
            if (n =? 0)%Z then ret tt
            else _ <- seed n ;; np_random_seed n
        | None => ret tt
        end) ;;
  u <- random ;;
  let price := 10 + u * 5 in
  u <- random ;;
  let base_period := 100 + u * 100 in
  u <- random ;;
  let medium_period := 30 + u * 20 in
  u <- random ;;
  let short_period := 8 + u * 8 in
  u <- random ;;
  let base_phase := u * PI * 2 in
  u <- random ;;
  let medium_phase := u * PI * 2 in
  u <- random ;;
  let short_phase := u * PI * 2 in
  generate_candles
    {| base_period := base_period; medium_period := medium_period;
       short_period := short_period; base_phase := base_phase;
       medium_phase := medium_phase; short_phase := short_phase |}
    (zrange 0 ROUND_DURATION_CANDLES) price.

(** The state from which the draws of a call are taken: the seeded state
    when the call reseeds, the caller's state otherwise. *)
Definition start_state (seed_arg : option Z) (g : rng) : rng :=
  match seed_arg with
  | Some n => if (n =? 0)%Z then g else rng_seed n
  | None => g
  end.

(** The seed arguments with which the call gets past its seeding: none,
    or an integer numpy accepts. *)
Definition seed_accepted (seed_arg : option Z) : bool :=
  match seed_arg with
  | Some n => (0 <=? n)%Z && (n <=? 4294967295)%Z
  | None => true
  end.

(** ** Player and Trade *)

Record Trade : Type := {
  entry_candle : Z;
  exit_candle : Z;
  entry_price : R;
  exit_price : R;
  gross_pnl : R;
  net_pnl : R;
  fee : R
}.

(** How one opened position ended.  The strategies only return the trades;
    the outcome names the path taken through their body. *)
Inductive Outcome : Type :=
| NoEntry
| Liquidated (position_size : R)
| Exited (t : Trade).

(** [has_round_liquidations] is the presence of the dynamic attribute
    [_round_liquidations] ([hasattr]).  [ledger] is a ghost field, absent
    from the source and never read by the model: it logs every mutation of
    [balance], most recent first. *)
Record Player : Type := {
  type : string;
  balance : R;
  initial_balance : R;
  total_trades : Z;
  winning_trades : Z;
  total_fees_paid : R;
  liquidations_suffered : Z;
  has_round_liquidations : bool;
  ledger : list Outcome
}.

(** [Player(player_type)] with the default [initial_balance=1000] *)
Definition new_player (player_type : string) (initial : R) : Player :=
  {| type := player_type; balance := initial; initial_balance := initial;
     total_trades := 0; winning_trades := 0; total_fees_paid := 0;
     liquidations_suffered := 0; has_round_liquidations := false;
     ledger := [] |}.

(** ** PlayerStrategy *)

Definition close_at (price_data : list Candle) (i : Z) : M R :=
  match py_index price_data i with
  | Some c => ret (close c)
  | None => raise
  end.

Definition high_at (price_data : list Candle) (i : Z) : M R :=
  match py_index price_data i with
  | Some c => ret (high c)
  | None => raise
  end.

(** The hold loop, the same in the four strategies:
    [for candle in <candles>: ... if simulator.check_liquidation(...)].
    Returns [true] when the position is liquidated. *)
Fixpoint hold_position (player : Player) (price_data : list Candle)
    (size_ratio : R) (entry_candle : Z) (entry_price position_size : R)
    (candles : list Z) : M bool :=
  match candles with
  | [] => ret false
  | c :: rest =>
      let duration := (c - entry_candle)%Z in
      current_price <- close_at price_data c ;;
      q <- pdiv position_size entry_price ;;
      let pnl := (current_price - entry_price) * q in
      pnl_percent <- pdiv pnl (balance player) ;;
      liquidated <- check_liquidation c (Some duration) (Some size_ratio)
                      (Some pnl_percent) ;;
      if liquidated then ret true
      else hold_position player price_data size_ratio entry_candle entry_price
             position_size rest
  end.

(** [player.balance -= position_size; player.liquidations_suffered += 1] *)
Definition liquidate (player : Player) (position_size : R) : Player :=
  {| type := type player;
     balance := balance player - position_size;
     initial_balance := initial_balance player;
     total_trades := total_trades player;
     winning_trades := winning_trades player;
     total_fees_paid := total_fees_paid player;
     liquidations_suffered := liquidations_suffered player + 1;
     has_round_liquidations := has_round_liquidations player;
     ledger := Liquidated position_size :: ledger player |}.

(** The four updates of a normal exit. *)
Definition credit (player : Player) (t : Trade) : Player :=
  {| type := type player;
     balance := balance player + net_pnl t;
     initial_balance := initial_balance player;
     total_trades := total_trades player + 1;
     winning_trades :=
       if Rltb 0 (net_pnl t) then (winning_trades player + 1)%Z
       else winning_trades player;
     total_fees_paid := total_fees_paid player + fee t;
     liquidations_suffered := liquidations_suffered player;
     has_round_liquidations := has_round_liquidations player;
     ledger := Exited t :: ledger player |}.

(** The block every strategy runs once a position is opened: the hold loop
    over [candles], then the liquidation or the normal exit, whose price is
    read at [exit_index] and recorded with [exit_candle]. *)
Definition hold_and_close (player : Player) (price_data : list Candle)
    (size_ratio : R) (entry_candle : Z) (entry_price position_size : R)
    (candles : list Z) (exit_index exit_candle : Z) : M (Player * Outcome) :=
  liquidated <- hold_position player price_data size_ratio entry_candle
                  entry_price position_size candles ;;
  if liquidated then
    ret (liquidate player position_size, Liquidated position_size)
  else
    exit_price <- close_at price_data exit_index ;;
    q <- pdiv position_size entry_price ;;
    let gross_pnl := (exit_price - entry_price) * q in
    let trading_fee := position_size * TRADING_FEE_RATE in
    let net_pnl := gross_pnl - trading_fee in
    let t := {| entry_candle := entry_candle; exit_candle := exit_candle;
                entry_price := entry_price; exit_price := exit_price;
                gross_pnl := gross_pnl; net_pnl := net_pnl;
                fee := trading_fee |} in
    ret (credit player t, Exited t).

(** The Trade record a strategy that reports its trades appends. *)
Definition trades_of (o : Outcome) : list Trade :=
  match o with
  | Exited t => [t]
  | _ => []
  end.

(** *** random_trader *)

(** One iteration of [for _ in range(num_trades)], past the balance test. *)
Definition random_trader_trade (player : Player) (price_data : list Candle)
    : M (Player * Outcome) :=
  entry_candle <- randint GRACE_PERIOD_CANDLES (len price_data - 50) ;;
  hold_duration <- randint 10 100 ;;
  let exit_candle := Z.min (entry_candle + hold_duration) (len price_data - 1) in
  entry_price <- close_at price_data entry_candle ;;
  let position_size := balance player * POSITION_SIZE_RATIO in
  hold_and_close player price_data POSITION_SIZE_RATIO entry_candle entry_price
    position_size (zrange entry_candle (exit_candle + 1)) exit_candle exit_candle.

Fixpoint random_trader_loop (n : nat) (player : Player) (price_data : list Candle)
    (trades : list Trade) : M (list Trade * Player) :=
  match n with
  | O => ret (trades, player)
  | S n' =>
      if Rleb (balance player) 0 then ret (trades, player)
      else
        '(player', o) <- random_trader_trade player price_data ;;
        random_trader_loop n' player' price_data (trades ++ trades_of o)
  end.

Definition random_trader (player : Player) (price_data : list Candle)
    : M (list Trade * Player) :=
  num_trades <- choices [0; 1; 2; 3; 4; 5]%Z [10; 30; 25; 20; 10; 5]%Z ;;
  random_trader_loop (Z.to_nat num_trades) player price_data [].

(** *** buy_and_hold *)

Definition buy_and_hold_position (player : Player) (price_data : list Candle)
    : M (Player * Outcome) :=
  if Rleb (balance player) 0 then ret (player, NoEntry)
  else
    let entry_candle := (GRACE_PERIOD_CANDLES + 10)%Z in
    entry_price <- close_at price_data entry_candle ;;
    let position_size := balance player * POSITION_SIZE_RATIO in
    hold_and_close player price_data POSITION_SIZE_RATIO entry_candle entry_price
      position_size (zrange entry_candle (len price_data)) (-1)
      (len price_data - 1).

Definition buy_and_hold (player : Player) (price_data : list Candle)
    : M (list Trade * Player) :=
  '(player', o) <- buy_and_hold_position player price_data ;;
  ret (trades_of o, player').

(** *** scalper *)

Definition scalper_trade (player : Player) (price_data : list Candle)
    : M (Player * Outcome) :=
  entry_candle <- randint GRACE_PERIOD_CANDLES (len price_data - 20) ;;
  hold_duration <- randint 5 30 ;;
  let exit_candle := Z.min (entry_candle + hold_duration) (len price_data - 1) in
  entry_price <- close_at price_data entry_candle ;;
  let position_size := balance player * (POSITION_SIZE_RATIO * 0.5) in
  hold_and_close player price_data (POSITION_SIZE_RATIO * 0.5) entry_candle
    entry_price position_size (zrange entry_candle (exit_candle + 1))
    exit_candle exit_candle.

(** [trades] is created empty and returned; the loop never appends to it. *)
Fixpoint scalper_loop (n : nat) (player : Player) (price_data : list Candle)
    (trades : list Trade) : M (list Trade * Player) :=
  match n with
  | O => ret (trades, player)
  | S n' =>
      if Rleb (balance player) 0 then ret (trades, player)
      else
        '(player', _) <- scalper_trade player price_data ;;
        scalper_loop n' player' price_data trades
  end.

Definition scalper (player : Player) (price_data : list Candle)
    : M (list Trade * Player) :=
  num_trades <- randint 5 15 ;;
  scalper_loop (Z.to_nat num_trades) player price_data [].

(** *** dip_buyer *)

(** The scan [for i in range(GRACE + lookback, len - 30)] collecting
    [entry_opportunities]. *)
Fixpoint find_dips (price_data : list Candle) (lookback : Z) (indices : list Z)
    : M (list Z) :=
  match indices with
  | [] => ret []
  | i :: rest =>
      highs <- mapM (high_at price_data) (zrange (i - lookback) i) ;;
      recent_high <- py_max highs ;;
      current_price <- close_at price_data i ;;
      drop_percent <- pdiv (recent_high - current_price) recent_high ;;
      found <- find_dips price_data lookback rest ;;
      ret (if Rltb 0.05 drop_percent then i :: found else found)
  end.

Definition dip_buyer_position (player : Player) (price_data : list Candle)
    : M (Player * Outcome) :=
  if Rleb (balance player) 0 then ret (player, NoEntry)
  else
    let lookback := 20%Z in
    entry_opportunities <-
      find_dips price_data lookback
        (zrange (GRACE_PERIOD_CANDLES + lookback) (len price_data - 30)) ;;
    match entry_opportunities with
    | [] => ret (player, NoEntry)
    | entry_candle :: _ =>
        entry_price <- close_at price_data entry_candle ;;
        let position_size := balance player * POSITION_SIZE_RATIO in
        hold_duration <- randint 30 80 ;;
        let exit_candle :=
          Z.min (entry_candle + hold_duration) (len price_data - 1) in
        hold_and_close player price_data POSITION_SIZE_RATIO entry_candle
          entry_price position_size (zrange entry_candle (exit_candle + 1))
          exit_candle exit_candle
    end.

Definition dip_buyer (player : Player) (price_data : list Candle)
    : M (list Trade * Player) :=
  '(player', o) <- dip_buyer_position player price_data ;;
  ret (trades_of o, player').

(** The code run for one position in each strategy, with the position-size
    ratio the strategy uses: the loop body of [random_trader] and of
    [scalper], the whole of [buy_and_hold] and of [dip_buyer]. *)
Definition position_steps
    : list ((Player -> list Candle -> M (Player * Outcome)) * R) :=
  [ (random_trader_trade, POSITION_SIZE_RATIO);
    (buy_and_hold_position, POSITION_SIZE_RATIO);
    (scalper_trade, POSITION_SIZE_RATIO * 0.5);
    (dip_buyer_position, POSITION_SIZE_RATIO) ].

(** ** run_trading_simulation *)

Definition Strategy : Type := Player -> list Candle -> M (list Trade * Player).

(** The dict [player_types], in insertion order. *)
Definition player_types : list (string * Strategy) :=
  [ ("random"%string, random_trader);
    ("hodl"%string, buy_and_hold);
    ("scalper"%string, scalper);
    ("dip_buyer"%string, dip_buyer) ].

(** [d[k]], [KeyError] is [None] *)
Fixpoint dict_get {V} (d : list (string * V)) (k : string) : option V :=
  match d with
  | [] => None
  | (k', v) :: rest => if String.eqb k k' then Some v else dict_get rest k
  end.

(** [all_players]: [players_per_type] fresh players per key of the dict. *)
Definition initial_players (players_per_type : Z) : list Player :=
  flat_map (fun kv => repeat (new_player (fst kv) 1000) (Z.to_nat players_per_type))
    player_types.

Record RoundData : Type := {
  round : Z;
  house_profit : R;
  fees_collected : R;
  liquidations : Z;
  start_price : R;
  end_price : R;
  price_change : R
}.

(** [for trade in trades: round_fees += trade['fee']] *)
Definition collect_fees (round_fees : R) (trades : list Trade) : R :=
  fold_left (fun acc t => acc + fee t) trades round_fees.

(** [for player in all_players: ...]: the players after the round and the
    fees collected. *)
Fixpoint play_players (players : list Player) (price_data : list Candle)
    (round_fees : R) : M (list Player * R) :=
  match players with
  | [] => ret ([], round_fees)
  | player :: rest =>
      if Rleb (balance player) 0 then
        '(rest', fees) <- play_players rest price_data round_fees ;;
        ret (player :: rest', fees)
      else
        match dict_get player_types (type player) with
        | None => raise
        | Some strategy =>
            '(trades, player') <- strategy player price_data ;;
            let round_fees := collect_fees round_fees trades in
            '(rest', fees) <- play_players rest price_data round_fees ;;
            ret (player' :: rest', fees)
        end
  end.

(** [sum(1 for p in all_players if hasattr(p, '_round_liquidations'))] *)
Definition count_round_liquidations (players : list Player) : Z :=
  len (filter has_round_liquidations players).

(** [if hasattr(player, '_round_liquidations'): delattr(...)] *)
Definition reset_round_liquidations (player : Player) : Player :=
  if has_round_liquidations player then
    {| type := type player; balance := balance player;
       initial_balance := initial_balance player;
       total_trades := total_trades player;
       winning_trades := winning_trades player;
       total_fees_paid := total_fees_paid player;
       liquidations_suffered := liquidations_suffered player;
       has_round_liquidations := false;
       ledger := ledger player |}
  else player.

(** The body of [for round_num in range(num_rounds)]. *)
Definition simulate_round (round_num : Z) (all_players : list Player)
    : M (list Player * RoundData) :=
  price_data <- generate_realistic_price_data (Some round_num) ;;
  '(all_players, round_fees) <- play_players all_players price_data 0 ;;
  let round_liquidations := count_round_liquidations all_players in
  let all_players := map reset_round_liquidations all_players in
  let house_profit := round_fees in
  first_close <- close_at price_data 0 ;;
  last_close <- close_at price_data (-1) ;;
  change <- pdiv (last_close - first_close) first_close ;;
  ret (all_players,
       {| round := round_num; house_profit := house_profit;
          fees_collected := round_fees; liquidations := round_liquidations;
          start_price := first_close; end_price := last_close;
          price_change := change |}).

Fixpoint simulate_rounds (round_nums : list Z) (all_players : list Player)
    (house_profits : list R) (round_data : list RoundData)
    : M (list Player * list R * list RoundData) :=
  match round_nums with
  | [] => ret (all_players, house_profits, round_data)
  | round_num :: rest =>
      '(all_players, rd) <- simulate_round round_num all_players ;;
      simulate_rounds rest all_players (house_profits ++ [house_profit rd])
        (round_data ++ [rd])
  end.

(** Returns [all_players, house_profits, round_data]; the lists
    [total_fees_collected] and [total_liquidations] repeat fields of
    [round_data] and are not returned. *)
Definition run_trading_simulation (num_rounds players_per_type : Z)
    : M (list Player * list R * list RoundData) :=
  simulate_rounds (zrange 0 num_rounds) (initial_players players_per_type) [] [].

End Kernel.

(** ** Quantities the properties speak of *)

(** Net PnL credited by the normal exits of a ledger. *)
Fixpoint ledger_net (l : list Outcome) : R :=
  match l with
  | [] => 0
  | Exited t :: rest => net_pnl t + ledger_net rest
  | _ :: rest => ledger_net rest
  end.

(** Position sizes forfeited by the liquidations of a ledger. *)
Fixpoint ledger_liquidated (l : list Outcome) : R :=
  match l with
  | [] => 0
  | Liquidated s :: rest => s + ledger_liquidated rest
  | _ :: rest => ledger_liquidated rest
  end.

(** Losses of a ledger already taken out of the balance: the forfeited
    sizes and the negative net PnL of losing trades, as positive amounts. *)
Fixpoint ledger_realized_losses (l : list Outcome) : R :=
  match l with
  | [] => 0
  | Liquidated s :: rest => s + ledger_realized_losses rest
  | Exited t :: rest =>
      (if Rltb (net_pnl t) 0 then - net_pnl t else 0) + ledger_realized_losses rest
  | NoEntry :: rest => ledger_realized_losses rest
  end.

(** The shape of a step of any strategy: the outcome tells the new player,
    the size is the balance at entry times the strategy's ratio, both
    prices of a trade are closes of the sequence. *)
Definition step_result (r : R) (pd : list Candle) (p p' : Player) (o : Outcome)
    : Prop :=
  match o with
  | NoEntry => p' = p
  | Liquidated s => s = balance p * r /\ p' = liquidate p s
  | Exited t =>
      p' = credit p t /\
      (exists ce, In ce pd /\ close ce = entry_price t) /\
      (exists cx, In cx pd /\ close cx = exit_price t) /\
      entry_price t <> 0 /\
      gross_pnl t = (exit_price t - entry_price t) * (balance p * r / entry_price t) /\
      fee t = balance p * r * TRADING_FEE_RATE /\
      net_pnl t = gross_pnl t - fee t
  end.

(** The balance is accounted for by the ledger. *)
Definition conserved (p : Player) : Prop :=
  balance p =
  initial_balance p + ledger_net (ledger p) - ledger_liquidated (ledger p).

Definition positive_closes (pd : list Candle) : Prop :=
  Forall (fun c => 0 < close c) pd.

Definition sum_R (l : list R) : R := fold_right Rplus 0 l.
Definition sum_Z (l : list Z) : Z := fold_right Z.add 0%Z l.

(** The invariant of a candle. *)
Definition candle_ok (c : Candle) : Prop :=
  low c <= Rmin (open c) (close c) /\
  Rmax (open c) (close c) <= high c /\
  0 < open c /\ 0 < high c /\ 0 < low c /\ 0 < close c.

(** Each candle opens where the previous one closed. *)
Fixpoint chained (data : list Candle) : Prop :=
  match data with
  | c1 :: ((c2 :: _) as rest) => open c2 = close c1 /\ chained rest
  | _ => True
  end.

(** The aggregate equation with a separate term for the realized losses,
    read over the final players of a run. *)
Definition stated_equation (players : list Player) : Prop :=
  sum_R (map balance players)
  + sum_R (map (fun p => ledger_realized_losses (ledger p)) players)
  = sum_R (map initial_balance players)
    + sum_R (map (fun p => ledger_net (ledger p)) players)
    - sum_R (map (fun p => ledger_liquidated (ledger p)) players).

(** A candle sequence as the generator makes it. *)
Definition well_formed (pd : list Candle) : Prop :=
  len pd = ROUND_DURATION_CANDLES /\ Forall candle_ok pd.

(** ** Concrete random sources

    [fixed_source u]: a generator with one state; [random.random()] is
    always [u], [randint] returns its lower bound, [choice] and [choices]
    the first element. *)
Definition fixed_source (u : R) : RandomSource :=
  {| rng := unit;
     rng_seed := fun _ => tt;
     rng_random := fun g => (u, g);
     rng_randint := fun a b g => if (a <=? b)%Z then Some (a, g) else None;
     rng_choice := fun l g => match l with x :: _ => Some (x, g) | [] => None end;
     rng_choices := fun l _ g => match l with x :: _ => Some (x, g) | [] => None end |}.

(** [steady_source]: a generator with two states that never moves;
    [random.random()] is [0] in state [false] and [1/2] in state [true],
    [randint] returns its lower bound, [choice] and [choices] the first
    element.  Seeding leads to state [false]. *)
Definition steady_source : RandomSource :=
  {| rng := bool;
     rng_seed := fun _ => false;
     rng_random := fun g => (if g then 1 / 2 else 0, g);
     rng_randint := fun a b g => if (a <=? b)%Z then Some (a, g) else None;
     rng_choice := fun l g => match l with x :: _ => Some (x, g) | [] => None end;
     rng_choices := fun l _ g => match l with x :: _ => Some (x, g) | [] => None end |}.

(** A price path that stays at 10. *)
Definition flat_candle (i : Z) : Candle :=
  {| candle := i; open := 10; high := 10; low := 10; close := 10 |}.

Definition flat_prices : list Candle :=
  map flat_candle (zrange 0 ROUND_DURATION_CANDLES).

(** Players as a run may leave them: three buy-and-hold players with
    different balances and trade counts, and one random trader. *)
Definition sample_player (player_type : string) (bal : R) (trades wins : Z)
    (fees : R) (liquidated : Z) : Player :=
  {| type := player_type; balance := bal; initial_balance := 1000;
     total_trades := trades; winning_trades := wins; total_fees_paid := fees;
     liquidations_suffered := liquidated; has_round_liquidations := false;
     ledger := [] |}.

Definition sample_players : list Player :=
  [ sample_player "hodl" 1050 1 1 0.4 0;
    sample_player "hodl" 800 0 0 0 1;
    sample_player "hodl" 1020 2 1 0.8 0;
    sample_player "random" 1000 0 0 0 0 ].

(** ** analyze_results

    The numbers [analyze_results] computes; the printing is left out.
    [np.mean], [np.median], [np.min] and [np.max] are numpy's reductions,
    read over the reals. *)

(** [sum(...)] of floats and of ints, from [0], left to right *)
Definition py_sum_R (l : list R) : R := fold_left Rplus l 0.
Definition py_sum_Z (l : list Z) : Z := fold_left Z.add l 0%Z.

(** [np.mean]: the sum over the length.  On an empty list numpy gives
    [nan]; every use below either sits behind a [np.min] that has raised
    by then, or keeps the case apart. *)
Definition mean_R (l : list R) : R := py_sum_R l / INR (List.length l).

Fixpoint insert_sorted (x : R) (l : list R) : list R :=
  match l with
  | [] => [x]
  | y :: rest => if Rleb x y then x :: l else y :: insert_sorted x rest
  end.

Definition sort_R (l : list R) : list R := fold_right insert_sorted [] l.

(** [np.median]: the middle of the sorted values, or the mean of the two
    middle ones. *)
Definition median_R (l : list R) : R :=
  let s := sort_R l in
  let n := List.length l in
  if Nat.even n then (nth (n / 2 - 1) s 0 + nth (n / 2) s 0) / 2
  else nth (n / 2) s 0.

(** [np.min], [np.max]: [ValueError] on an empty list *)
Definition np_min (l : list R) : option R :=
  match l with
  | [] => None
  | x :: rest => Some (fold_left Rmin rest x)
  end.

Definition np_max (l : list R) : option R :=
  match l with
  | [] => None
  | x :: rest => Some (fold_left Rmax rest x)
  end.

(** One entry of [player_stats].  [stat_total_trades] and
    [stat_total_fees_paid] are the keys ['total_trades'] and
    ['total_fees_paid']. *)
Record PlayerStats : Type := {
  avg_balance : R;
  median_balance : R;
  min_balance : R;
  max_balance : R;
  stat_total_trades : Z;
  win_rate : R;
  stat_total_fees_paid : R;
  liquidation_rate : R;
  avg_roi : R
}.

(** The body of [for player_type in [...]].  With no player of the type,
    [np.min] raises. *)
Definition analyze_type (players : list Player) (player_type : string)
    : option PlayerStats :=
  let type_players := filter (fun p => String.eqb (type p) player_type) players in
  let balances := map balance type_players in
  let trades := py_sum_Z (map total_trades type_players) in
  let total_wins := py_sum_Z (map winning_trades type_players) in
  let total_fees := py_sum_R (map total_fees_paid type_players) in
  let total_liquidations := py_sum_Z (map liquidations_suffered type_players) in
  match np_min balances, np_max balances with
  | Some mn, Some mx =>
      Some {| avg_balance := mean_R balances;
              median_balance := median_R balances;
              min_balance := mn;
              max_balance := mx;
              stat_total_trades := trades;
              win_rate :=
                if (0 <? trades)%Z then IZR total_wins / IZR trades * 100 else 0;
              stat_total_fees_paid := total_fees;
              liquidation_rate :=
                IZR total_liquidations / INR (List.length type_players) * 100;
              avg_roi := (mean_R balances - 1000) / 1000 * 100 |}
  | _, _ => None
  end.

(** The house figures and overall statistics the function prints.
    [avg_profit_per_round] is [None] where numpy gives [nan]. *)
Record HouseReport : Type := {
  total_house_profit : R;
  avg_profit_per_round : option R;
  report_total_fees : R;
  total_liquidation_events : Z;
  total_player_starting_balance : R;
  total_player_ending_balance : R;
  player_net_loss : R;
  house_edge : R
}.

Fixpoint analyze_types (players : list Player) (player_types_list : list string)
    : option (list (string * PlayerStats)) :=
  match player_types_list with
  | [] => Some []
  | ty :: rest =>
      match analyze_type players ty with
      | None => None
      | Some st =>
          match analyze_types players rest with
          | None => None
          | Some sts => Some ((ty, st) :: sts)
          end
      end
  end.

(** Returns [player_stats] (the other two results are the arguments
    handed back) and the figures printed on the way. *)
Definition analyze_results (players : list Player) (house_profits : list R)
    (round_data : list RoundData)
    : option (list (string * PlayerStats) * HouseReport) :=
  match analyze_types players
          ["random"%string; "hodl"%string; "scalper"%string; "dip_buyer"%string] with
  | None => None
  | Some player_stats =>
      let total_house_profit := py_sum_R house_profits in
      let avg_profit_per_round :=
        match house_profits with [] => None | _ => Some (mean_R house_profits) end in
      let total_fees := py_sum_R (map fees_collected round_data) in
      let total_liquidation_events := py_sum_Z (map liquidations round_data) in
      let starting := INR (List.length players) * 1000 in
      let ending := py_sum_R (map balance players) in
      let net_loss := starting - ending in
      if Reqb starting 0 then None
      else
        Some (player_stats,
              {| total_house_profit := total_house_profit;
                 avg_profit_per_round := avg_profit_per_round;
                 report_total_fees := total_fees;
                 total_liquidation_events := total_liquidation_events;
                 total_player_starting_balance := starting;
                 total_player_ending_balance := ending;
                 player_net_loss := net_loss;
                 house_edge := net_loss / starting * 100 |})
  end.

(** ** QuickTradingSimulator.calculate_liquidation_probability

    The risk function of [src/quick_simulation.py]; its constants are those
    of [TradingGameSimulator].  [position_duration and ...]: [None] and [0]
    are falsy. *)
Section Quick.
Context {RS : RandomSource}.

Definition quick_calculate_liquidation_probability (candle_num : Z)
    (position_duration : option Z) : M R :=
  if (candle_num <? GRACE_PERIOD_CANDLES)%Z then ret 0
  else
    let candles_since_grace := (candle_num - GRACE_PERIOD_CANDLES)%Z in
    let ramp_period := 75%Z in
    let base_chance :=
      if (candles_since_grace <? ramp_period)%Z then
        let ramp_multiplier := IZR candles_since_grace / IZR ramp_period in
        0.0003 * ramp_multiplier
      else 0.0003 in
    let base_chance :=
      match position_duration with
      | Some d =>
          if negb (d =? 0)%Z && (60 <? d)%Z then
            base_chance
            + Rmin 0.004 (Rpower ((IZR d - 60) / 200) 1.8 * 0.006)
          else base_chance
      | None => base_chance
      end in
    base_chance <-
      (if (GRACE_PERIOD_CANDLES <=? candle_num)%Z then
         u <- random ;;
         let random_multiplier := 0.7 + u * 0.8 in
         ret (base_chance * random_multiplier)
       else ret base_chance) ;;
    ret (Rmin 0.01 base_chance).

End Quick.

(** ** Further quantities *)

(** The counters of a player are consistent. *)
Definition counters_ok (p : Player) : Prop :=
  (0 <= winning_trades p <= total_trades p)%Z /\
  (0 <= liquidations_suffered p)%Z /\
  0 <= total_fees_paid p /\
  initial_balance p = 1000.

(** A trade lies inside the round, after the grace period. *)
Definition trade_in_round (pd : list Candle) (t : Trade) : Prop :=
  (GRACE_PERIOD_CANDLES <= entry_candle t)%Z /\
  (entry_candle t <= exit_candle t)%Z /\
  (exit_candle t <= len pd - 1)%Z.

(** * Properties *)

(** ** Booleans, the monad, Python lists *)

Lemma Rltb_true x y : x < y -> Rltb x y = true.
Proof. intros H; unfold Rltb; destruct (Rlt_dec x y); [reflexivity | contradiction]. Qed.

Lemma Rltb_false x y : y <= x -> Rltb x y = false.
Proof. intros H; unfold Rltb; destruct (Rlt_dec x y); [lra | reflexivity]. Qed.

Lemma Rltb_spec x y : Rltb x y = true <-> x < y.
Proof. unfold Rltb; destruct (Rlt_dec x y); split; intros; try discriminate; tauto. Qed.

Lemma Rleb_true x y : x <= y -> Rleb x y = true.
Proof. intros H; unfold Rleb; destruct (Rle_dec x y); [reflexivity | contradiction]. Qed.

Lemma Rleb_false x y : y < x -> Rleb x y = false.
Proof. intros H; unfold Rleb; destruct (Rle_dec x y); [lra | reflexivity]. Qed.

Lemma Rleb_spec x y : Rleb x y = true <-> x <= y.
Proof. unfold Rleb; destruct (Rle_dec x y); split; intros; try discriminate; tauto. Qed.

Lemma Reqb_false x y : x <> y -> Reqb x y = false.
Proof. intros H; unfold Reqb; destruct (Req_dec_T x y); [contradiction | reflexivity]. Qed.

Lemma Reqb_spec x y : Reqb x y = true <-> x = y.
Proof. unfold Reqb; destruct (Req_dec_T x y); split; intros; try discriminate; tauto. Qed.

Section Basics.
Context {RS : RandomSource}.

Lemma bind_Some {A B} (m : M A) (k : A -> M B) g b g2 :
  bind m k g = Some (b, g2) ->
  exists a g1, m g = Some (a, g1) /\ k a g1 = Some (b, g2).
Proof.
  unfold bind; destruct (m g) as [[a g1]|]; [|discriminate].
  intros H; exists a, g1; split; [reflexivity | exact H].
Qed.

Lemma bind_eq {A B} (m : M A) (k : A -> M B) g a g1 :
  m g = Some (a, g1) -> bind m k g = k a g1.
Proof. unfold bind; intros ->; reflexivity. Qed.

Lemma ret_Some {A} (a b : A) g g' : ret a g = Some (b, g') -> a = b /\ g = g'.
Proof. unfold ret; intros H; injection H; auto. Qed.

Lemma pdiv_Some a b q g g' :
  pdiv a b g = Some (q, g') -> b <> 0 /\ q = a / b /\ g' = g.
Proof.
  unfold pdiv. destruct (Reqb b 0) eqn:E; [discriminate|].
  intros H; apply ret_Some in H as [<- <-].
  repeat split; auto. intros ->. rewrite (proj2 (Reqb_spec 0 0) eq_refl) in E.
  discriminate.
Qed.

Lemma pdiv_eq a b g : b <> 0 -> pdiv a b g = Some (a / b, g).
Proof. intros H; unfold pdiv; rewrite Reqb_false by exact H; reflexivity. Qed.

Lemma random_Some u g g' :
  random g = Some (u, g') -> u = fst (rng_random g) /\ g' = snd (rng_random g).
Proof. unfold random; destruct (rng_random g); intros H; injection H; auto. Qed.

(** ** The risk model *)

Lemma base_chance_bounds c :
  (GRACE_PERIOD_CANDLES <= c)%Z -> 0 <= base_chance c <= 0.0003.
Proof.
  unfold base_chance, GRACE_PERIOD_CANDLES, RAMP_UP_PERIOD; intros H.
  destruct (c - 150 <? 75)%Z eqn:E; [|lra].
  apply Z.ltb_lt in E.
  assert (0 <= IZR (c - 150) <= 75) by (split; apply IZR_le; lia).
  lra.
Qed.

Lemma time_risk_bounds d : 0 <= time_risk d <= 0.004.
Proof.
  unfold time_risk; split; [|apply Rmin_l].
  apply Rmin_glb; [lra|].
  assert (0 < Rpower ((IZR d - 60) / 200) 1.8) by apply exp_pos.
  lra.
Qed.

Lemma size_risk_bounds x : 0.7 < x -> 0 <= size_risk x <= 0.0005.
Proof.
  unfold size_risk; intros H; split; [|apply Rmin_l].
  apply Rmin_glb; lra.
Qed.

Lemma greed_risk_bounds x : 0.3 < x -> 0 <= greed_risk x <= 0.0008.
Proof.
  unfold greed_risk; intros H; split; [|apply Rmin_l].
  apply Rmin_glb; lra.
Qed.

Lemma truthy_gt_inv x t : truthy_gt x t = true -> t < opt_val x.
Proof.
  destruct x as [v|]; simpl; [|discriminate].
  intros H; apply andb_prop in H as [_ H]. now apply Rltb_spec.
Qed.

Lemma composed_risk_bounds c d s p :
  (GRACE_PERIOD_CANDLES <= c)%Z -> 0 <= composed_risk c d s p <= 0.0056.
Proof.
  intros H. pose proof (base_chance_bounds c H) as Hb.
  unfold composed_risk. destruct d as [d|]; [|lra].
  pose proof (time_risk_bounds d) as Ht.
  destruct (60 <? d)%Z;
    (destruct (truthy_gt s 0.7) eqn:Es;
       [apply truthy_gt_inv, size_risk_bounds in Es|]);
    (destruct (truthy_gt p 0.3) eqn:Ep;
       [apply truthy_gt_inv, greed_risk_bounds in Ep|]); lra.
Qed.

Lemma time_risk_mono d1 d2 :
  (60 < d1)%Z -> (d1 <= d2)%Z -> time_risk d1 <= time_risk d2.
Proof.
  intros H1 H2. unfold time_risk.
  assert (60 < IZR d1) by (apply (IZR_lt 60); lia).
  assert (IZR d1 <= IZR d2) by (apply IZR_le; lia).
  assert (Rpower ((IZR d1 - 60) / 200) 1.8 <= Rpower ((IZR d2 - 60) / 200) 1.8)
    by (apply Rle_Rpower_l; lra).
  apply Rmin_glb; [apply Rmin_l|].
  eapply Rle_trans; [apply Rmin_r|]. lra.
Qed.

Lemma calculate_liquidation_probability_grace c d s p g :
  (c < GRACE_PERIOD_CANDLES)%Z ->
  calculate_liquidation_probability c d s p g = Some (0, g).
Proof.
  intros H. unfold calculate_liquidation_probability.
  apply Z.ltb_lt in H. rewrite H. reflexivity.
Qed.

Lemma calculate_liquidation_probability_after c d s p g :
  (GRACE_PERIOD_CANDLES <= c)%Z ->
  calculate_liquidation_probability c d s p g =
  Some (Rmin 0.01 (composed_risk c d s p * (0.7 + fst (rng_random g) * 0.8)),
        snd (rng_random g)).
Proof.
  intros H. unfold calculate_liquidation_probability.
  destruct (c <? GRACE_PERIOD_CANDLES)%Z eqn:E; [apply Z.ltb_lt in E; lia|].
  apply Z.leb_le in H. rewrite H.
  unfold bind, random, ret. destruct (rng_random g); reflexivity.
Qed.

(** C1. The probability returned by [calculate_liquidation_probability] is
    exactly 0 for a candle index below the grace period, whatever the other
    arguments; and for all arguments, when the multiplier drawn lies in
    [0.7, 1.5], the call returns a probability in [0, 0.01]. *)
Theorem liquidation_probability_range :
  (forall c d s p g, (c < GRACE_PERIOD_CANDLES)%Z ->
     calculate_liquidation_probability c d s p g = Some (0, g)) /\
  (forall c d s p g,
     0.7 <= 0.7 + fst (rng_random g) * 0.8 <= 1.5 ->
     exists prob g',
       calculate_liquidation_probability c d s p g = Some (prob, g') /\
       0 <= prob <= 0.01).
Proof.
  split; [exact calculate_liquidation_probability_grace|].
  intros c d s p g Hm.
  destruct (Z_lt_le_dec c GRACE_PERIOD_CANDLES) as [Hc|Hc].
  - exists 0, g. split; [now apply calculate_liquidation_probability_grace | lra].
  - eexists _, _. split; [now apply calculate_liquidation_probability_after|].
    pose proof (composed_risk_bounds c d s p Hc) as Hr.
    split; [|apply Rmin_l].
    apply Rmin_glb; [lra|]. apply Rmult_le_pos; lra.
Qed.

(** C8. With candle index (at or after the grace period), position size
    ratio and PnL percent fixed, the risk composed before the random
    multiplier and the cap is non-decreasing in the hold duration. *)
Theorem composed_risk_monotone_in_duration c s p d1 d2 :
  (GRACE_PERIOD_CANDLES <= c)%Z -> (d1 <= d2)%Z ->
  composed_risk c (Some d1) s p <= composed_risk c (Some d2) s p.
Proof.
  intros _ Hd. unfold composed_risk.
  assert (Ht : (if (60 <? d1)%Z then base_chance c + time_risk d1 else base_chance c)
               <= (if (60 <? d2)%Z then base_chance c + time_risk d2 else base_chance c)).
  { destruct (60 <? d1)%Z eqn:E1; destruct (60 <? d2)%Z eqn:E2.
    - apply Z.ltb_lt in E1. pose proof (time_risk_mono d1 d2 E1 Hd). lra.
    - apply Z.ltb_lt in E1. apply Z.ltb_ge in E2. lia.
    - pose proof (time_risk_bounds d2). lra.
    - lra. }
  destruct (truthy_gt s 0.7); destruct (truthy_gt p 0.3); lra.
Qed.

End Basics.

(** ** The candle generator *)

Ltac bind_inv H :=
  let a := fresh "a" in
  let g := fresh "g" in
  let E := fresh "E" in
  apply bind_Some in H as (a & g & E & H); cbv beta in H.

Section Generator.
Context {RS : RandomSource} {RL : RandomLaws RS}.

Lemma random_draw u g g' : random g = Some (u, g') -> 0 <= u < 1.
Proof. intros H; apply random_Some in H as [-> _]. apply random_unit. Qed.

Lemma random_total g : exists u g', random g = Some (u, g') /\ 0 <= u < 1.
Proof.
  exists (fst (rng_random g)), (snd (rng_random g)).
  split; [unfold random; destruct (rng_random g); reflexivity | apply random_unit].
Qed.

Lemma generate_candle_ok w i price g c g' :
  0.01 <= price ->
  generate_candle w i price g = Some (c, g') ->
  candle_ok c /\ open c = price /\ 0.01 <= close c /\ candle c = i.
Proof.
  intros Hp H. unfold generate_candle in H.
  bind_inv H. bind_inv H. bind_inv H.
  bind_inv H. apply random_draw in E2.
  bind_inv H.
  bind_inv H. apply random_draw in E4.
  bind_inv H. apply random_draw in E5.
  bind_inv H. apply random_draw in E6.
  bind_inv H. apply random_draw in E7.
  bind_inv H. apply random_draw in E8.
  apply ret_Some in H as [<- _]. unfold candle_ok; simpl.
  set (move := price * (0.02 + a2 * 0.06) * copysign1 _).
  set (cl := Rmax 0.01 (price + move * (0.5 + a5 * 0.5))).
  assert (Hcl : 0.01 <= cl) by apply Rmax_l.
  assert (Hw1 : 0 <= Rabs move * (0.3 + a6 * 0.4) * a7).
  { pose proof (Rabs_pos move). repeat apply Rmult_le_pos; lra. }
  assert (Hw2 : 0 <= Rabs move * (0.3 + a6 * 0.4) * a8).
  { pose proof (Rabs_pos move). repeat apply Rmult_le_pos; lra. }
  assert (Hmin : 0.01 <= Rmin price cl) by (apply Rmin_glb; lra).
  pose proof (Rmax_l price cl) as Hmax.
  repeat split; try lra.
  - apply Rmax_lub; lra.
  - eapply Rlt_le_trans; [|apply Rmax_l]. lra.
Qed.

Lemma generate_candles_ok w indices : forall price g data g',
  0.01 <= price ->
  generate_candles w indices price g = Some (data, g') ->
  Forall candle_ok data /\ chained data /\
  match data with c :: _ => open c = price | [] => True end /\
  map candle data = indices.
Proof.
  induction indices as [|i rest IH]; intros price g data g' Hp H; simpl in H.
  - apply ret_Some in H as [<- _]. repeat split; constructor.
  - bind_inv H. bind_inv H. apply ret_Some in H as [<- _].
    apply generate_candle_ok in E as (Hok & Ho & Hc & Hi); [|exact Hp].
    apply IH in E0 as (Hall & Hch & Hhd & Hidx); [|exact Hc].
    repeat split.
    + constructor; assumption.
    + destruct a0 as [|c2 tl]; simpl; auto.
    + exact Ho.
    + simpl. now rewrite Hi, Hidx.
Qed.

Lemma generate_candle_total w i price g :
  base_period w <> 0 -> medium_period w <> 0 -> short_period w <> 0 ->
  exists c g', generate_candle w i price g = Some (c, g').
Proof.
  intros Hb Hm Hs. unfold generate_candle.
  rewrite (bind_eq _ _ _ _ _ (pdiv_eq _ _ g Hb)).
  rewrite (bind_eq _ _ _ _ _ (pdiv_eq _ _ g Hm)).
  rewrite (bind_eq _ _ _ _ _ (pdiv_eq _ _ g Hs)).
  destruct (random_total g) as (u1 & g1 & E1 & _).
  rewrite (bind_eq _ _ _ _ _ E1).
  destruct (choice_total (-1)%Z [1%Z] g1) as (dir & g2 & E2).
  rewrite (bind_eq (choice _) _ _ _ _ E2).
  destruct (random_total g2) as (u3 & g3 & E3 & _). rewrite (bind_eq _ _ _ _ _ E3).
  destruct (random_total g3) as (u4 & g4 & E4 & _). rewrite (bind_eq _ _ _ _ _ E4).
  destruct (random_total g4) as (u5 & g5 & E5 & _). rewrite (bind_eq _ _ _ _ _ E5).
  destruct (random_total g5) as (u6 & g6 & E6 & _). rewrite (bind_eq _ _ _ _ _ E6).
  destruct (random_total g6) as (u7 & g7 & E7 & _). rewrite (bind_eq _ _ _ _ _ E7).
  eexists _, _. reflexivity.
Qed.

Lemma generate_candles_total w indices : forall price g,
  base_period w <> 0 -> medium_period w <> 0 -> short_period w <> 0 ->
  exists data g', generate_candles w indices price g = Some (data, g').
Proof.
  induction indices as [|i rest IH]; intros price g Hb Hm Hs; simpl.
  - eexists _, _; reflexivity.
  - destruct (generate_candle_total w i price g Hb Hm Hs) as (c & g1 & E).
    rewrite (bind_eq _ _ _ _ _ E).
    destruct (IH (close c) g1 Hb Hm Hs) as (data & g2 & E2).
    rewrite (bind_eq _ _ _ _ _ E2). eexists _, _; reflexivity.
Qed.

Lemma generate_from_start seed_arg g :
  generate_realistic_price_data seed_arg g =
  if seed_accepted seed_arg
  then generate_realistic_price_data None (start_state seed_arg g)
  else None.
Proof.
  unfold generate_realistic_price_data, start_state, seed_accepted.
  destruct seed_arg as [n|]; [|reflexivity].
  destruct (n =? 0)%Z eqn:E0.
  - apply Z.eqb_eq in E0. subst n. reflexivity.
  - unfold np_random_seed.
    destruct ((0 <=? n)%Z && (n <=? 4294967295)%Z); reflexivity.
Qed.

Lemma generate_returned seed_arg g r :
  generate_realistic_price_data seed_arg g = Some r ->
  seed_accepted seed_arg = true /\
  generate_realistic_price_data None (start_state seed_arg g) = Some r.
Proof.
  rewrite generate_from_start.
  destruct (seed_accepted seed_arg); [auto | discriminate].
Qed.

Lemma generate_ok seed_arg g data g' :
  generate_realistic_price_data seed_arg g = Some (data, g') ->
  Forall candle_ok data /\ chained data /\
  map candle data = zrange 0 ROUND_DURATION_CANDLES.
Proof.
  intros H0. apply generate_returned in H0 as [_ H0]. revert H0.
  generalize (start_state seed_arg g) as g0.
  intros g0 H. unfold generate_realistic_price_data in H.
  bind_inv H. apply ret_Some in E as [_ <-].
  bind_inv H. apply random_draw in E.
  do 6 bind_inv H.
  apply generate_candles_ok in H as (H1 & H2 & _ & H3); [auto | lra].
Qed.

Lemma generate_total seed_arg g :
  seed_accepted seed_arg = true ->
  exists data g', generate_realistic_price_data seed_arg g = Some (data, g').
Proof.
  intros Hs. rewrite generate_from_start, Hs.
  generalize (start_state seed_arg g) as g0.
  intros g0. unfold generate_realistic_price_data.
  rewrite (bind_eq (ret tt) _ g0 tt g0 eq_refl).
  destruct (random_total g0) as (u1 & g1 & E1 & _). rewrite (bind_eq _ _ _ _ _ E1).
  destruct (random_total g1) as (u2 & g2 & E2 & ?). rewrite (bind_eq _ _ _ _ _ E2).
  destruct (random_total g2) as (u3 & g3 & E3 & ?). rewrite (bind_eq _ _ _ _ _ E3).
  destruct (random_total g3) as (u4 & g4 & E4 & ?). rewrite (bind_eq _ _ _ _ _ E4).
  destruct (random_total g4) as (u5 & g5 & E5 & _). rewrite (bind_eq _ _ _ _ _ E5).
  destruct (random_total g5) as (u6 & g6 & E6 & _). rewrite (bind_eq _ _ _ _ _ E6).
  destruct (random_total g6) as (u7 & g7 & E7 & _). rewrite (bind_eq _ _ _ _ _ E7).
  apply generate_candles_total; simpl; lra.
Qed.

End Generator.

(** ** One position *)

Section Positions.
Context {RS : RandomSource}.

Lemma py_index_In {A} (l : list A) i x : py_index l i = Some x -> In x l.
Proof.
  unfold py_index. destruct (i <? - Z.of_nat (List.length l))%Z; [discriminate|].
  destruct (i <? 0)%Z; apply nth_error_In.
Qed.

Lemma py_index_range {A} (l : list A) i :
  (0 <= i < len l)%Z -> exists x, py_index l i = Some x.
Proof.
  unfold py_index, len. intros H.
  destruct (i <? - Z.of_nat (List.length l))%Z eqn:E1; [apply Z.ltb_lt in E1; lia|].
  destruct (i <? 0)%Z eqn:E2; [apply Z.ltb_lt in E2; lia|].
  destruct (nth_error l (Z.to_nat i)) eqn:E; [eauto|].
  apply nth_error_None in E. lia.
Qed.

Lemma py_index_last {A} (l : list A) :
  (0 < len l)%Z -> py_index l (-1) = py_index l (len l - 1).
Proof.
  unfold py_index, len. intros H.
  destruct (-1 <? - Z.of_nat (List.length l))%Z eqn:E1; [apply Z.ltb_lt in E1; lia|].
  destruct (Z.of_nat (List.length l) - 1 <? - Z.of_nat (List.length l))%Z eqn:E2;
    [apply Z.ltb_lt in E2; lia|].
  destruct (Z.of_nat (List.length l) - 1 <? 0)%Z eqn:E3; [apply Z.ltb_lt in E3; lia|].
  change (-1 <? 0)%Z with true. cbv iota.
  replace (Z.of_nat (List.length l) + -1)%Z with (Z.of_nat (List.length l) - 1)%Z by lia.
  reflexivity.
Qed.

Lemma close_at_Some pd i x g g' :
  close_at pd i g = Some (x, g') ->
  g' = g /\ exists c, py_index pd i = Some c /\ close c = x.
Proof.
  unfold close_at. destruct (py_index pd i) as [c|]; [|discriminate].
  intros H; apply ret_Some in H as [<- <-]. eauto.
Qed.

Lemma close_at_eq pd i c g :
  py_index pd i = Some c -> close_at pd i g = Some (close c, g).
Proof. unfold close_at; intros ->; reflexivity. Qed.

Lemma zrange_In lo hi i : In i (zrange lo hi) <-> (lo <= i < hi)%Z.
Proof.
  unfold zrange. rewrite in_map_iff. split.
  - intros (k & <- & Hk). apply in_seq in Hk. lia.
  - intros H. exists (Z.to_nat (i - lo)). split; [lia|]. apply in_seq. lia.
Qed.

Lemma check_liquidation_total c d s p g :
  exists b g', check_liquidation c d s p g = Some (b, g').
Proof.
  unfold check_liquidation.
  destruct (Z_lt_le_dec c GRACE_PERIOD_CANDLES) as [H|H].
  - rewrite (bind_eq _ _ _ _ _ (calculate_liquidation_probability_grace c d s p g H)).
    unfold bind, random, ret. destruct (rng_random g). eauto.
  - rewrite (bind_eq _ _ _ _ _ (calculate_liquidation_probability_after c d s p g H)).
    unfold bind, random, ret. destruct (rng_random (snd (rng_random g))). eauto.
Qed.

Lemma hold_position_total p pd r ec ep ps candles : forall g,
  (forall c, In c candles -> (0 <= c < len pd)%Z) ->
  ep <> 0 -> balance p <> 0 ->
  exists b g', hold_position p pd r ec ep ps candles g = Some (b, g').
Proof.
  induction candles as [|c rest IH]; intros g Hin Hep Hbal; simpl.
  - eexists _, _; reflexivity.
  - destruct (py_index_range pd c (Hin c (or_introl eq_refl))) as (x & Hx).
    rewrite (bind_eq _ _ _ _ _ (close_at_eq pd c x g Hx)).
    rewrite (bind_eq _ _ _ _ _ (pdiv_eq _ _ g Hep)).
    rewrite (bind_eq _ _ _ _ _ (pdiv_eq _ _ g Hbal)).
    destruct (check_liquidation_total c (Some (c - ec)%Z) (Some r)
                (Some ((close x - ep) * (ps / ep) / balance p)) g) as (b & g1 & E).
    rewrite (bind_eq _ _ _ _ _ E).
    destruct b; [eexists _, _; reflexivity|].
    apply IH; auto. intros c' Hc'. apply Hin. now right.
Qed.

(** What [hold_and_close] does to the player on each of its two paths. *)
Lemma hold_and_close_inv p pd r ec ep ps candles xi xc g p' o g' :
  hold_and_close p pd r ec ep ps candles xi xc g = Some (p', o, g') ->
  (o = Liquidated ps /\ p' = liquidate p ps) \/
  (exists t cx, o = Exited t /\ p' = credit p t /\
     py_index pd xi = Some cx /\ exit_price t = close cx /\
     entry_price t = ep /\ ep <> 0 /\
     entry_candle t = ec /\ exit_candle t = xc /\
     gross_pnl t = (exit_price t - ep) * (ps / ep) /\
     fee t = ps * TRADING_FEE_RATE /\
     net_pnl t = gross_pnl t - fee t).
Proof.
  unfold hold_and_close. intros H. bind_inv H. destruct a.
  - apply ret_Some in H as [H _]. injection H as <- <-. now left.
  - bind_inv H. apply close_at_Some in E0 as (-> & cx & Hcx & <-).
    bind_inv H. apply pdiv_Some in E0 as (Hep & -> & ->).
    apply ret_Some in H as [H _]. injection H as <- <-.
    right. eexists _, cx. repeat split; simpl; auto.
Qed.

Lemma hold_and_close_total p pd r ec ep ps candles xi xc g :
  (forall c, In c candles -> (0 <= c < len pd)%Z) ->
  (exists cx, py_index pd xi = Some cx) ->
  ep <> 0 -> balance p <> 0 ->
  exists p' o g', hold_and_close p pd r ec ep ps candles xi xc g = Some (p', o, g').
Proof.
  intros Hin (cx & Hcx) Hep Hbal. unfold hold_and_close.
  destruct (hold_position_total p pd r ec ep ps candles g Hin Hep Hbal)
    as (b & g1 & E).
  rewrite (bind_eq _ _ _ _ _ E). destruct b; [eexists _, _, _; reflexivity|].
  rewrite (bind_eq _ _ _ _ _ (close_at_eq pd xi cx g1 Hcx)).
  rewrite (bind_eq _ _ _ _ _ (pdiv_eq _ _ g1 Hep)).
  eexists _, _, _; reflexivity.
Qed.

Lemma hold_and_close_step p pd r ec ce candles xi xc g p' o g' :
  In ce pd ->
  hold_and_close p pd r ec (close ce) (balance p * r) candles xi xc g
    = Some (p', o, g') ->
  step_result r pd p p' o.
Proof.
  intros Hce H. apply hold_and_close_inv in H as [[-> ->] | H].
  - simpl. auto.
  - destruct H as (t & cx & -> & -> & Hcx & Hx & He & Hne & _ & _ & Hg & Hf & Hn).
    simpl. repeat split; auto.
    + exists ce. split; [exact Hce | now rewrite He].
    + exists cx. split; [now apply py_index_In in Hcx | now rewrite Hx].
    + now rewrite He.
    + now rewrite He.
Qed.

Lemma position_step_result f r p pd g p' o g' :
  In (f, r) position_steps ->
  f p pd g = Some (p', o, g') ->
  step_result r pd p p' o.
Proof.
  unfold position_steps. simpl.
  intros [E | [E | [E | [E | []]]]]; injection E as <- <-; intros H.
  - unfold random_trader_trade in H. do 2 bind_inv H. bind_inv H.
    apply close_at_Some in E1 as (-> & ce & Hce & <-).
    eapply hold_and_close_step; [eapply py_index_In; eauto | exact H].
  - unfold buy_and_hold_position in H.
    destruct (Rleb (balance p) 0).
    + apply ret_Some in H as [H _]. injection H as <- <-. reflexivity.
    + bind_inv H. apply close_at_Some in E as (-> & ce & Hce & <-).
      eapply hold_and_close_step; [eapply py_index_In; eauto | exact H].
  - unfold scalper_trade in H. do 2 bind_inv H. bind_inv H.
    apply close_at_Some in E1 as (-> & ce & Hce & <-).
    eapply hold_and_close_step; [eapply py_index_In; eauto | exact H].
  - unfold dip_buyer_position in H.
    destruct (Rleb (balance p) 0).
    + apply ret_Some in H as [H _]. injection H as <- <-. reflexivity.
    + bind_inv H. destruct a as [|entry rest].
      * apply ret_Some in H as [H _]. injection H as <- <-. reflexivity.
      * bind_inv H. apply close_at_Some in E0 as (-> & ce & Hce & <-).
        bind_inv H.
        eapply hold_and_close_step; [eapply py_index_In; eauto | exact H].
Qed.

End Positions.

(** ** Invariants carried through the loops and the rounds *)

Section Invariant.
Context {RS : RandomSource}.
Variable Q : list Candle -> Prop.
Variable I : Player -> Prop.
Hypothesis step_keeps : forall f r p pd g p' o g',
  In (f, r) position_steps -> Q pd -> I p ->
  f p pd g = Some (p', o, g') -> I p'.
Hypothesis reset_keeps : forall p, I p -> I (reset_round_liquidations p).
Hypothesis generated : forall s g data g',
  generate_realistic_price_data s g = Some (data, g') -> Q data.

Lemma random_trader_loop_keeps pd n : forall p trades g trades' p' g',
  Q pd -> I p ->
  random_trader_loop n p pd trades g = Some (trades', p', g') -> I p'.
Proof.
  induction n as [|n IH]; intros p trades g trades' p' g' HQ HI H; simpl in H.
  - apply ret_Some in H as [H _]. now injection H as _ <-.
  - destruct (Rleb (balance p) 0).
    + apply ret_Some in H as [H _]. now injection H as _ <-.
    + bind_inv H. destruct a as [p1 o].
      eapply IH; [exact HQ | | exact H].
      eapply (step_keeps random_trader_trade); [left; reflexivity | | | ]; eauto.
Qed.

Lemma scalper_loop_keeps pd n : forall p trades g trades' p' g',
  Q pd -> I p ->
  scalper_loop n p pd trades g = Some (trades', p', g') -> I p'.
Proof.
  induction n as [|n IH]; intros p trades g trades' p' g' HQ HI H; simpl in H.
  - apply ret_Some in H as [H _]. now injection H as _ <-.
  - destruct (Rleb (balance p) 0).
    + apply ret_Some in H as [H _]. now injection H as _ <-.
    + bind_inv H. destruct a as [p1 o].
      eapply IH; [exact HQ | | exact H].
      eapply (step_keeps scalper_trade); [right; right; left; reflexivity | | | ]; eauto.
Qed.

Lemma strategy_keeps name strategy p pd g trades p' g' :
  In (name, strategy) player_types -> Q pd -> I p ->
  strategy p pd g = Some (trades, p', g') -> I p'.
Proof.
  unfold player_types. simpl.
  intros [E | [E | [E | [E | []]]]]; injection E as _ <-; intros HQ HI H.
  - unfold random_trader in H. bind_inv H.
    eapply random_trader_loop_keeps; eauto.
  - unfold buy_and_hold in H. bind_inv H. destruct a as [p1 o].
    apply ret_Some in H as [H _]. injection H as _ <-.
    eapply (step_keeps buy_and_hold_position); [right; left; reflexivity | | | ]; eauto.
  - unfold scalper in H. bind_inv H.
    eapply scalper_loop_keeps; eauto.
  - unfold dip_buyer in H. bind_inv H. destruct a as [p1 o].
    apply ret_Some in H as [H _]. injection H as _ <-.
    eapply (step_keeps dip_buyer_position);
      [right; right; right; left; reflexivity | | | ]; eauto.
Qed.

Lemma dict_get_In {V} (d : list (string * V)) k v :
  dict_get d k = Some v -> In (k, v) d.
Proof.
  induction d as [|[k' v'] rest IH]; simpl; [discriminate|].
  destruct (String.eqb k k') eqn:E.
  - apply String.eqb_eq in E as ->. intros H; injection H as ->. now left.
  - intros H. right. now apply IH.
Qed.

Lemma play_players_keeps pd players : forall fees g players' fees' g',
  Q pd -> Forall I players ->
  play_players players pd fees g = Some (players', fees', g') ->
  Forall I players'.
Proof.
  induction players as [|p rest IH]; intros fees g players' fees' g' HQ HI H;
    cbn [play_players] in H.
  - apply ret_Some in H as [H _]. injection H as <- _. constructor.
  - inversion HI as [|? ? Hp Hrest]; subst.
    destruct (Rleb (balance p) 0).
    + bind_inv H. destruct a as [rest' f1].
      apply ret_Some in H as [H _]. injection H as <- _.
      constructor; [exact Hp | eapply IH; eauto].
    + destruct (dict_get player_types (type p)) as [strategy|] eqn:Ed;
        [|unfold raise in H; cbv beta in H; discriminate].
      bind_inv H. destruct a as [trades p1].
      bind_inv H. destruct a as [rest' f1].
      apply ret_Some in H as [H _]. injection H as <- _.
      constructor; [|eapply IH; eauto].
      eapply strategy_keeps; [eapply dict_get_In; eauto | | | ]; eauto.
Qed.

Lemma simulate_round_keeps n players g players' rd g' :
  Forall I players ->
  simulate_round n players g = Some (players', rd, g') ->
  Forall I players'.
Proof.
  intros HI H. unfold simulate_round in H.
  bind_inv H. bind_inv H. destruct a0 as [ps fees].
  do 3 bind_inv H. apply ret_Some in H as [H _]. injection H as <- _.
  apply generated in E.
  eapply play_players_keeps in E0; eauto.
  apply Forall_map. eapply Forall_impl; [|exact E0]. exact reset_keeps.
Qed.

Lemma simulate_rounds_keeps nums : forall players hp rds g players' hp' rds' g',
  Forall I players ->
  simulate_rounds nums players hp rds g = Some (players', hp', rds', g') ->
  Forall I players'.
Proof.
  induction nums as [|n rest IH]; intros players hp rds g players' hp' rds' g' HI H;
    simpl in H.
  - apply ret_Some in H as [H _]. now injection H as <- _ _.
  - bind_inv H. destruct a as [ps rd].
    eapply IH; [|exact H]. eapply simulate_round_keeps; eauto.
Qed.

End Invariant.

(** ** Accounting of one position *)

Section Accounting.
Context {RS : RandomSource}.

Lemma step_ratio f r :
  In (f, r) position_steps -> r = 0.2 \/ r = 0.1.
Proof.
  unfold position_steps, POSITION_SIZE_RATIO. simpl.
  intros [E | [E | [E | [E | []]]]]; injection E as _ <-; lra.
Qed.

Lemma step_keeps_positive f r p pd g p' o g' :
  In (f, r) position_steps -> positive_closes pd -> 0 < balance p ->
  f p pd g = Some (p', o, g') -> 0 < balance p'.
Proof.
  intros Hf Hpd Hb H.
  pose proof (position_step_result f r p pd g p' o g' Hf H) as S.
  apply step_ratio in Hf.
  destruct o as [|s|t]; simpl in S.
  - now subst.
  - destruct S as (-> & ->). simpl. destruct Hf as [-> | ->]; lra.
  - destruct S as (-> & (ce & Hce & He) & (cx & Hcx & Hx) & Hne & Hg & Hfee & Hnet).
    unfold positive_closes in Hpd. rewrite Forall_forall in Hpd.
    apply Hpd in Hce, Hcx. rewrite He in Hce. rewrite Hx in Hcx.
    simpl. rewrite Hnet, Hg, Hfee. unfold TRADING_FEE_RATE.
    set (e := entry_price t) in *. set (x := exit_price t) in *.
    assert (Hq : 0 < x / e) by (apply Rdiv_lt_0_compat; assumption).
    replace ((x - e) * (balance p * r / e))
      with (balance p * r * (x / e) - balance p * r) by (field; lra).
    assert (0 < balance p * r * (x / e)).
    { apply Rmult_lt_0_compat; [|exact Hq]. destruct Hf as [-> | ->]; lra. }
    destruct Hf as [-> | ->]; lra.
Qed.

Lemma step_keeps_conserved f r p pd g p' o g' :
  In (f, r) position_steps -> True -> conserved p ->
  f p pd g = Some (p', o, g') -> conserved p'.
Proof.
  intros Hf _ Hc H.
  pose proof (position_step_result f r p pd g p' o g' Hf H) as S.
  unfold conserved in *. destruct o as [|s|t]; simpl in S.
  - now subst.
  - destruct S as (_ & ->). simpl. lra.
  - destruct S as (-> & _). simpl. lra.
Qed.

Lemma reset_fields p :
  balance (reset_round_liquidations p) = balance p /\
  initial_balance (reset_round_liquidations p) = initial_balance p /\
  ledger (reset_round_liquidations p) = ledger p /\
  liquidations_suffered (reset_round_liquidations p) = liquidations_suffered p /\
  type (reset_round_liquidations p) = type p.
Proof. unfold reset_round_liquidations. destruct (has_round_liquidations p); simpl; auto. Qed.

Lemma initial_players_Forall (P : Player -> Prop) k :
  (forall name, P (new_player name 1000)) -> Forall P (initial_players k).
Proof.
  intros H. unfold initial_players. apply Forall_forall. intros p Hp.
  apply in_flat_map in Hp as (kv & _ & Hp). apply repeat_spec in Hp. subst. apply H.
Qed.

Lemma conserved_sum players :
  Forall conserved players ->
  sum_R (map balance players) =
  sum_R (map initial_balance players)
  + sum_R (map (fun p => ledger_net (ledger p)) players)
  - sum_R (map (fun p => ledger_liquidated (ledger p)) players).
Proof.
  unfold sum_R. induction 1 as [|p rest Hp _ IH]; simpl; [lra|].
  unfold conserved in Hp. lra.
Qed.

End Accounting.

(** ** Whole strategies and whole runs *)

Section Runs.
Context {RS : RandomSource}.

Lemma zrange_length lo hi : List.length (zrange lo hi) = Z.to_nat (hi - lo).
Proof. unfold zrange. now rewrite length_map, length_seq. Qed.

Lemma step_trade_count f r p pd g p' o g' :
  In (f, r) position_steps ->
  f p pd g = Some (p', o, g') ->
  total_trades p' = (total_trades p + len (trades_of o))%Z.
Proof.
  intros Hf H. pose proof (position_step_result f r p pd g p' o g' Hf H) as S.
  destruct o as [|s|t]; simpl in S.
  - subst. unfold len; simpl. lia.
  - destruct S as (_ & ->). unfold len; simpl. lia.
  - destruct S as (-> & _). unfold len; simpl. lia.
Qed.

Lemma random_trader_loop_count pd n : forall p trades g trades' p' g',
  random_trader_loop n p pd trades g = Some (trades', p', g') ->
  (len trades' - len trades = total_trades p' - total_trades p)%Z.
Proof.
  induction n as [|n IH]; intros p trades g trades' p' g' H; simpl in H.
  - apply ret_Some in H as [H _]. injection H as <- <-. lia.
  - destruct (Rleb (balance p) 0).
    + apply ret_Some in H as [H _]. injection H as <- <-. lia.
    + bind_inv H. destruct a as [p1 o].
      apply IH in H.
      apply (step_trade_count random_trader_trade POSITION_SIZE_RATIO) in E;
        [|left; reflexivity].
      unfold len in *. rewrite length_app in H. lia.
Qed.

(** The three strategies that report their trades return one record per
    normal exit: the list grows as the trade counter does. *)
Lemma reported_trades_count name strategy p pd g trades p' g' :
  In (name, strategy)
     [ ("random"%string, random_trader); ("hodl"%string, buy_and_hold);
       ("dip_buyer"%string, dip_buyer) ] ->
  strategy p pd g = Some (trades, p', g') ->
  len trades = (total_trades p' - total_trades p)%Z.
Proof.
  simpl. intros [E | [E | [E | []]]]; injection E as _ <-; intros H.
  - unfold random_trader in H. bind_inv H.
    apply random_trader_loop_count in H. unfold len in *. simpl in H. lia.
  - unfold buy_and_hold in H. bind_inv H. destruct a as [p1 o].
    apply ret_Some in H as [H _]. injection H as <- <-.
    apply (step_trade_count buy_and_hold_position POSITION_SIZE_RATIO) in E;
      [lia | right; left; reflexivity].
  - unfold dip_buyer in H. bind_inv H. destruct a as [p1 o].
    apply ret_Some in H as [H _]. injection H as <- <-.
    apply (step_trade_count dip_buyer_position POSITION_SIZE_RATIO) in E;
      [lia | right; right; right; left; reflexivity].
Qed.

(** [scalper] returns the list it created, whatever happened. *)
Lemma scalper_loop_trades pd n : forall p trades g trades' p' g',
  scalper_loop n p pd trades g = Some (trades', p', g') -> trades' = trades.
Proof.
  induction n as [|n IH]; intros p trades g trades' p' g' H; simpl in H.
  - apply ret_Some in H as [H _]. now injection H as <- _.
  - destruct (Rleb (balance p) 0).
    + apply ret_Some in H as [H _]. now injection H as <- _.
    + bind_inv H. destruct a as [p1 o]. eapply IH; eauto.
Qed.

Lemma scalper_reports_nothing p pd g trades p' g' :
  scalper p pd g = Some (trades, p', g') -> trades = [].
Proof.
  unfold scalper. intros H. bind_inv H. eapply scalper_loop_trades; eauto.
Qed.

Lemma step_records f r p pd g p' o g' :
  In (f, r) position_steps ->
  f p pd g = Some (p', o, g') ->
  Forall (fun t => net_pnl t = gross_pnl t - fee t) (trades_of o).
Proof.
  intros Hf H. pose proof (position_step_result f r p pd g p' o g' Hf H) as S.
  destruct o as [|s|t]; simpl; constructor; [|constructor].
  simpl in S. apply S.
Qed.

Lemma random_trader_loop_records pd n : forall p trades g trades' p' g',
  Forall (fun t => net_pnl t = gross_pnl t - fee t) trades ->
  random_trader_loop n p pd trades g = Some (trades', p', g') ->
  Forall (fun t => net_pnl t = gross_pnl t - fee t) trades'.
Proof.
  induction n as [|n IH]; intros p trades g trades' p' g' HP H; simpl in H.
  - apply ret_Some in H as [H _]. now injection H as <- _.
  - destruct (Rleb (balance p) 0).
    + apply ret_Some in H as [H _]. now injection H as <- _.
    + bind_inv H. destruct a as [p1 o].
      eapply IH; [|exact H]. apply Forall_app. split; [exact HP|].
      eapply (step_records random_trader_trade); [left; reflexivity | exact E].
Qed.

Lemma strategy_records name strategy p pd g trades p' g' :
  In (name, strategy) player_types ->
  strategy p pd g = Some (trades, p', g') ->
  Forall (fun t => net_pnl t = gross_pnl t - fee t) trades.
Proof.
  unfold player_types. simpl.
  intros [E | [E | [E | [E | []]]]]; injection E as _ <-; intros H.
  - unfold random_trader in H. bind_inv H.
    eapply random_trader_loop_records; [constructor | exact H].
  - unfold buy_and_hold in H. bind_inv H. destruct a as [p1 o].
    apply ret_Some in H as [H _]. injection H as <- _.
    eapply (step_records buy_and_hold_position); [right; left; reflexivity | exact E].
  - apply scalper_reports_nothing in H as ->. constructor.
  - unfold dip_buyer in H. bind_inv H. destruct a as [p1 o].
    apply ret_Some in H as [H _]. injection H as <- _.
    eapply (step_records dip_buyer_position);
      [right; right; right; left; reflexivity | exact E].
Qed.

(** C4. A position of any strategy that reaches its normal exit has
    net PnL = gross PnL - fee, fee = position size * 0.002 (the size being
    the balance at entry times the strategy's ratio); the balance grows by
    the net PnL, the fees paid by the fee, the trade counter by one, and
    the win counter by one exactly when the net PnL is positive.  Every
    Trade record a strategy returns has net PnL = gross PnL - fee. *)
Theorem normal_exit_accounting :
  (forall f r p pd g p' t g',
     In (f, r) position_steps ->
     f p pd g = Some (p', Exited t, g') ->
     net_pnl t = gross_pnl t - fee t /\
     fee t = (balance p * r) * 0.002 /\
     balance p' = balance p + net_pnl t /\
     total_fees_paid p' = total_fees_paid p + fee t /\
     total_trades p' = (total_trades p + 1)%Z /\
     (0 < net_pnl t -> winning_trades p' = (winning_trades p + 1)%Z) /\
     (net_pnl t <= 0 -> winning_trades p' = winning_trades p) /\
     liquidations_suffered p' = liquidations_suffered p) /\
  (forall name strategy p pd g trades p' g',
     In (name, strategy) player_types ->
     strategy p pd g = Some (trades, p', g') ->
     Forall (fun t => net_pnl t = gross_pnl t - fee t) trades).
Proof.
  split; [|exact strategy_records].
  intros f r p pd g p' t g' Hf H.
  pose proof (position_step_result f r p pd g p' _ g' Hf H) as S.
  simpl in S. destruct S as (-> & _ & _ & _ & _ & Hfee & Hnet).
  unfold TRADING_FEE_RATE in Hfee. simpl.
  repeat split; auto.
  - intros Hpos. now rewrite Rltb_true.
  - intros Hle. now rewrite Rltb_false.
Qed.

Lemma step_keeps_trades_above (q : Player) f r p pd g p' o g' :
  In (f, r) position_steps -> True ->
  (total_trades q <= total_trades p)%Z ->
  f p pd g = Some (p', o, g') ->
  (total_trades q <= total_trades p')%Z.
Proof.
  intros Hf _ Hq H.
  pose proof (position_step_result f r p pd g p' o g' Hf H) as S.
  destruct o as [|s|t]; simpl in S.
  - now subst.
  - destruct S as (_ & ->). exact Hq.
  - destruct S as (-> & _). simpl. lia.
Qed.

(** C5. A position of any strategy that is liquidated takes exactly the
    position size (balance at entry times the strategy's ratio) off the
    balance and adds one to the liquidation counter; fees paid, trade
    counter, win counter and the other fields of the player stay as they
    were.  The position contributes no Trade record: a liquidation yields
    none, and a strategy never returns more records than the trade counter,
    which a liquidation leaves alone, has grown. *)
Theorem liquidation_accounting :
  (forall f r p pd g p' s g',
     In (f, r) position_steps ->
     f p pd g = Some (p', Liquidated s, g') ->
     s = balance p * r /\
     balance p' = balance p - s /\
     liquidations_suffered p' = (liquidations_suffered p + 1)%Z /\
     total_fees_paid p' = total_fees_paid p /\
     total_trades p' = total_trades p /\
     winning_trades p' = winning_trades p /\
     type p' = type p /\
     initial_balance p' = initial_balance p /\
     has_round_liquidations p' = has_round_liquidations p /\
     trades_of (Liquidated s) = []) /\
  (forall name strategy p pd g trades p' g',
     In (name, strategy) player_types ->
     strategy p pd g = Some (trades, p', g') ->
     (len trades <= total_trades p' - total_trades p)%Z).
Proof.
  split.
  - intros f r p pd g p' s g' Hf H.
    pose proof (position_step_result f r p pd g p' _ g' Hf H) as S.
    simpl in S. destruct S as (Hs & ->). simpl. repeat split; auto.
  - intros name strategy p pd g trades p' g' Hin H.
    pose proof Hin as Hin'. unfold player_types in Hin'. simpl in Hin'.
    destruct Hin' as [E | [E | [E | [E | []]]]]; injection E as <- <-.
    + apply (reported_trades_count "random" random_trader) in H;
        [lia | simpl; tauto].
    + apply (reported_trades_count "hodl" buy_and_hold) in H;
        [lia | simpl; tauto].
    + pose proof (scalper_reports_nothing _ _ _ _ _ _ H) as ->.
      pose proof (strategy_keeps (fun _ => True)
                    (fun q => (total_trades p <= total_trades q)%Z)
                    (step_keeps_trades_above p)
                    _ _ _ _ _ _ _ _ Hin I (Z.le_refl _) H) as Hle.
      change (len (@nil Trade)) with 0%Z. cbv beta in Hle. lia.
    + apply (reported_trades_count "dip_buyer" dip_buyer) in H;
        [lia | simpl; tauto].
Qed.

Lemma run_keeps_conserved n k g players hp rds g' :
  run_trading_simulation n k g = Some (players, hp, rds, g') ->
  Forall conserved players.
Proof.
  intros H. unfold run_trading_simulation in H.
  eapply (simulate_rounds_keeps (fun _ => True) conserved); [ | | | | exact H].
  - intros; eapply step_keeps_conserved; eauto.
  - intros p Hp. unfold conserved in *.
    destruct (reset_fields p) as (-> & -> & -> & _). exact Hp.
  - trivial.
  - apply initial_players_Forall. intros name. unfold conserved; simpl. lra.
Qed.

(** C9 (amended). After any run every player's balance is the initial
    balance plus the net PnL of the player's normal exits minus the sizes
    forfeited at the player's liquidations, and so the sum of the balances
    is the sum of the initial balances plus the sum of net PnL minus the sum
    of liquidation losses, with no further term for realized losses. *)
Theorem balances_conserved n k g players hp rds g' :
  run_trading_simulation n k g = Some (players, hp, rds, g') ->
  Forall (fun p =>
    balance p = initial_balance p + ledger_net (ledger p)
                - ledger_liquidated (ledger p)) players /\
  sum_R (map balance players) =
  sum_R (map initial_balance players)
  + sum_R (map (fun p => ledger_net (ledger p)) players)
  - sum_R (map (fun p => ledger_liquidated (ledger p)) players).
Proof.
  intros H. pose proof (run_keeps_conserved _ _ _ _ _ _ _ H) as HF.
  split; [exact HF | now apply conserved_sum].
Qed.

Context {RL : RandomLaws RS}.

Lemma generate_positive_closes s g data g' :
  generate_realistic_price_data s g = Some (data, g') -> positive_closes data.
Proof.
  intros H. apply generate_ok in H as (H & _).
  unfold positive_closes. eapply Forall_impl; [|exact H].
  intros c Hc. apply Hc.
Qed.

Lemma generate_well_formed s g data g' :
  generate_realistic_price_data s g = Some (data, g') -> well_formed data.
Proof.
  intros H. apply generate_ok in H as (H & _ & Hi). split; [|exact H].
  unfold len. rewrite <- (length_map candle), Hi, zrange_length.
  reflexivity.
Qed.

(** C6. For every seed argument and every state of the stream, every
    candle sequence the generator returns has [ROUND_DURATION_CANDLES]
    candles; each has low <= min(open, close) <= max(open, close) <= high
    and four strictly positive prices, and each candle opens at the close
    of the one before.  The generator returns such a sequence for every
    seed argument that gets past the seeding: none, or an integer from 0 to
    2^32 - 1. *)
Theorem generated_candles_valid :
  (forall seed_arg g data g',
     generate_realistic_price_data seed_arg g = Some (data, g') ->
     len data = ROUND_DURATION_CANDLES /\
     Forall (fun c =>
       low c <= Rmin (open c) (close c) /\
       Rmin (open c) (close c) <= Rmax (open c) (close c) /\
       Rmax (open c) (close c) <= high c /\
       0 < open c /\ 0 < high c /\ 0 < low c /\ 0 < close c) data /\
     chained data) /\
  (forall seed_arg g,
     seed_accepted seed_arg = true ->
     exists data g',
       generate_realistic_price_data seed_arg g = Some (data, g')).
Proof.
  split; [|intros seed_arg g Hs; now apply generate_total].
  intros seed_arg g data g' H.
  pose proof (generate_well_formed _ _ _ _ H) as [Hlen _].
  apply generate_ok in H as (Hok & Hch & _).
  repeat split; auto.
  eapply Forall_impl; [|exact Hok].
  intros c (H1 & H2 & H3). repeat split; try tauto.
  apply Rle_trans with (open c); [apply Rmin_l | apply Rmax_l].
Qed.

(** C10. A strategy run by a player with a strictly positive balance on
    a candle sequence with strictly positive closes leaves the balance
    strictly positive; and after any run of the simulation every player has
    a strictly positive balance, so that no player is ever skipped. *)
Theorem balance_stays_positive :
  (forall name strategy p pd g trades p' g',
     In (name, strategy) player_types ->
     0 < balance p -> positive_closes pd ->
     strategy p pd g = Some (trades, p', g') -> 0 < balance p') /\
  (forall n k g players hp rds g',
     run_trading_simulation n k g = Some (players, hp, rds, g') ->
     Forall (fun p => 0 < balance p) players).
Proof.
  split.
  - intros name strategy p pd g trades p' g' Hin Hb Hpd H.
    eapply (strategy_keeps positive_closes (fun p => 0 < balance p)); eauto.
    intros; eapply step_keeps_positive; eauto.
  - intros n k g players hp rds g' H. unfold run_trading_simulation in H.
    eapply (simulate_rounds_keeps positive_closes (fun p => 0 < balance p));
      [ | | | | exact H].
    + intros; eapply step_keeps_positive; eauto.
    + intros p Hp. now destruct (reset_fields p) as (-> & _).
    + intros; eapply generate_positive_closes; eauto.
    + apply initial_players_Forall. intros name; simpl. lra.
Qed.

End Runs.

(** ** The functions return *)

Section Totality.
Context {RS : RandomSource} {RL : RandomLaws RS}.

Lemma randint_ok a b g :
  (a <= b)%Z ->
  exists n g', randint a b g = Some (n, g') /\ (a <= n <= b)%Z.
Proof.
  intros H. destruct (randint_total a b g H) as (n & g' & E).
  exists n, g'. split; [exact E | eapply randint_range; eauto].
Qed.

Lemma wf_index pd i :
  well_formed pd -> (0 <= i < ROUND_DURATION_CANDLES)%Z ->
  exists c, py_index pd i = Some c /\ candle_ok c.
Proof.
  intros [Hlen Hok] Hi. rewrite <- Hlen in Hi.
  destruct (py_index_range pd i Hi) as (c & Hc). exists c. split; [exact Hc|].
  rewrite Forall_forall in Hok. apply Hok. eapply py_index_In; eauto.
Qed.

Lemma wf_last pd :
  well_formed pd -> exists c, py_index pd (-1) = Some c /\ candle_ok c.
Proof.
  intros Hwf. pose proof Hwf as [Hlen _].
  rewrite py_index_last by (rewrite Hlen; reflexivity).
  apply wf_index; [exact Hwf|]. rewrite Hlen. unfold ROUND_DURATION_CANDLES. lia.
Qed.

Lemma candle_ok_close c : candle_ok c -> close c <> 0.
Proof. intros (_ & _ & _ & _ & _ & H). lra. Qed.

(** A position opened at a candle of a well-formed sequence and scanned
    over candles of the sequence is resolved. *)
Lemma position_resolved p pd r entry lo hi xi xc g :
  well_formed pd -> balance p <> 0 ->
  (0 <= entry < ROUND_DURATION_CANDLES)%Z ->
  (0 <= lo)%Z -> (hi <= ROUND_DURATION_CANDLES)%Z ->
  (exists cx, py_index pd xi = Some cx) ->
  exists p' o g',
    (entry_price <- close_at pd entry ;;
     hold_and_close p pd r entry entry_price (balance p * r)
       (zrange lo hi) xi xc) g = Some (p', o, g').
Proof.
  intros Hwf Hb He Hlo Hhi Hx.
  destruct (wf_index pd entry Hwf He) as (ce & Hce & Hok).
  rewrite (bind_eq _ _ _ _ _ (close_at_eq pd entry ce g Hce)).
  apply hold_and_close_total; auto.
  - intros c Hc. apply zrange_In in Hc. destruct Hwf as [-> _]. lia.
  - now apply candle_ok_close.
Qed.

Lemma random_trader_trade_total p pd g :
  well_formed pd -> balance p <> 0 ->
  exists p' o g', random_trader_trade p pd g = Some (p', o, g').
Proof.
  intros Hwf Hb. pose proof Hwf as [Hlen _]. unfold random_trader_trade.
  rewrite Hlen. unfold ROUND_DURATION_CANDLES, GRACE_PERIOD_CANDLES.
  destruct (randint_ok 150 (470 - 50) g ltac:(lia)) as (entry & g1 & E1 & H1).
  rewrite (bind_eq _ _ _ _ _ E1).
  destruct (randint_ok 10 100 g1 ltac:(lia)) as (hold & g2 & E2 & H2).
  rewrite (bind_eq _ _ _ _ _ E2).
  apply position_resolved; auto; unfold ROUND_DURATION_CANDLES; try lia.
  apply py_index_range. rewrite Hlen. unfold ROUND_DURATION_CANDLES. lia.
Qed.

Lemma scalper_trade_total p pd g :
  well_formed pd -> balance p <> 0 ->
  exists p' o g', scalper_trade p pd g = Some (p', o, g').
Proof.
  intros Hwf Hb. pose proof Hwf as [Hlen _]. unfold scalper_trade.
  rewrite Hlen. unfold ROUND_DURATION_CANDLES, GRACE_PERIOD_CANDLES.
  destruct (randint_ok 150 (470 - 20) g ltac:(lia)) as (entry & g1 & E1 & H1).
  rewrite (bind_eq _ _ _ _ _ E1).
  destruct (randint_ok 5 30 g1 ltac:(lia)) as (hold & g2 & E2 & H2).
  rewrite (bind_eq _ _ _ _ _ E2).
  apply position_resolved; auto; unfold ROUND_DURATION_CANDLES; try lia.
  apply py_index_range. rewrite Hlen. unfold ROUND_DURATION_CANDLES. lia.
Qed.

Lemma buy_and_hold_position_total p pd g :
  well_formed pd ->
  exists p' o g', buy_and_hold_position p pd g = Some (p', o, g').
Proof.
  intros Hwf. pose proof Hwf as [Hlen _]. unfold buy_and_hold_position.
  destruct (Rleb (balance p) 0) eqn:Eb; [eexists _, _, _; reflexivity|].
  assert (balance p <> 0).
  { intros H0. rewrite Rleb_true in Eb by lra. discriminate. }
  rewrite Hlen. unfold GRACE_PERIOD_CANDLES.
  apply position_resolved; auto; unfold ROUND_DURATION_CANDLES; try lia.
  destruct (wf_last pd Hwf) as (c & Hc & _). eauto.
Qed.

Lemma fold_left_Rmax_ge l : forall x, x <= fold_left Rmax l x.
Proof.
  induction l as [|y l IH]; intros x; simpl; [lra|].
  eapply Rle_trans; [apply (Rmax_l x y) | apply IH].
Qed.

Lemma mapM_high_total pd l g :
  well_formed pd ->
  (forall j, In j l -> (0 <= j < ROUND_DURATION_CANDLES)%Z) ->
  exists hs, mapM (high_at pd) l g = Some (hs, g) /\
             List.length hs = List.length l /\ Forall (fun h => 0 < h) hs.
Proof.
  intros Hwf. induction l as [|j rest IH]; intros Hin; simpl.
  - exists []. repeat split; constructor.
  - destruct (wf_index pd j Hwf (Hin j (or_introl eq_refl))) as (c & Hc & Hok).
    destruct IH as (hs & E & Hl & Hp); [intros; apply Hin; now right|].
    exists (high c :: hs). split; [|split].
    + unfold bind at 1. unfold high_at. rewrite Hc. unfold ret at 1.
      rewrite (bind_eq _ _ _ _ _ E). reflexivity.
    + simpl. now rewrite Hl.
    + constructor; [apply Hok | exact Hp].
Qed.

Lemma find_dips_total pd indices g :
  well_formed pd ->
  (forall i, In i indices -> (20 <= i < ROUND_DURATION_CANDLES)%Z) ->
  exists found, find_dips pd 20 indices g = Some (found, g) /\ incl found indices.
Proof.
  intros Hwf. induction indices as [|i rest IH]; intros Hin; simpl.
  - exists []. split; [reflexivity | apply incl_refl].
  - pose proof (Hin i (or_introl eq_refl)) as Hi.
    destruct (mapM_high_total pd (zrange (i - 20) i) g Hwf) as (hs & E & Hl & Hp).
    { intros j Hj. apply zrange_In in Hj. lia. }
    rewrite (bind_eq _ _ _ _ _ E).
    rewrite zrange_length in Hl.
    destruct hs as [|h hs]; [simpl in Hl; lia|].
    unfold py_max. rewrite (bind_eq (ret _) _ g _ g eq_refl).
    destruct (wf_index pd i Hwf ltac:(lia)) as (c & Hc & Hok).
    rewrite (bind_eq _ _ _ _ _ (close_at_eq pd i c g Hc)).
    assert (Hne : fold_left Rmax hs h <> 0).
    { inversion Hp; subst. pose proof (fold_left_Rmax_ge hs h). lra. }
    rewrite (bind_eq _ _ _ _ _ (pdiv_eq _ _ g Hne)).
    destruct IH as (found & E2 & Hincl); [intros; apply Hin; now right|].
    rewrite (bind_eq _ _ _ _ _ E2).
    eexists. split; [reflexivity|].
    destruct (Rltb 0.05 _).
    + intros x [<- | Hx]; [now left | right; now apply Hincl].
    + now apply incl_tl.
Qed.

Lemma dip_buyer_position_total p pd g :
  well_formed pd ->
  exists p' o g', dip_buyer_position p pd g = Some (p', o, g').
Proof.
  intros Hwf. pose proof Hwf as [Hlen _]. unfold dip_buyer_position.
  destruct (Rleb (balance p) 0) eqn:Eb; [eexists _, _, _; reflexivity|].
  assert (balance p <> 0).
  { intros H0. rewrite Rleb_true in Eb by lra. discriminate. }
  rewrite Hlen. unfold GRACE_PERIOD_CANDLES, ROUND_DURATION_CANDLES.
  destruct (find_dips_total pd (zrange (150 + 20) (470 - 30)) g Hwf)
    as (found & E & Hincl).
  { intros i Hi. apply zrange_In in Hi. unfold ROUND_DURATION_CANDLES. lia. }
  rewrite (bind_eq _ _ _ _ _ E).
  destruct found as [|entry rest]; [eexists _, _, _; reflexivity|].
  assert (He : (170 <= entry < 440)%Z).
  { assert (In entry (zrange (150 + 20) (470 - 30))) by (apply Hincl; now left).
    apply zrange_In in H0. lia. }
  destruct (wf_index pd entry Hwf) as (ce & Hce & Hok);
    [unfold ROUND_DURATION_CANDLES; lia|].
  rewrite (bind_eq _ _ _ _ _ (close_at_eq pd entry ce g Hce)).
  destruct (randint_ok 30 80 g ltac:(lia)) as (hold & g1 & E1 & H1).
  rewrite (bind_eq _ _ _ _ _ E1).
  apply hold_and_close_total; auto.
  - intros c Hc. apply zrange_In in Hc. rewrite Hlen.
    unfold ROUND_DURATION_CANDLES. lia.
  - apply py_index_range. rewrite Hlen. unfold ROUND_DURATION_CANDLES. lia.
  - now apply candle_ok_close.
Qed.

Lemma random_trader_loop_total pd n : forall p trades g,
  well_formed pd ->
  exists trades' p' g', random_trader_loop n p pd trades g = Some (trades', p', g').
Proof.
  induction n as [|n IH]; intros p trades g Hwf; simpl.
  - eexists _, _, _; reflexivity.
  - destruct (Rleb (balance p) 0) eqn:Eb; [eexists _, _, _; reflexivity|].
    assert (balance p <> 0).
    { intros H0. rewrite Rleb_true in Eb by lra. discriminate. }
    destruct (random_trader_trade_total p pd g Hwf H) as (p1 & o & g1 & E).
    rewrite (bind_eq _ _ _ _ _ E). apply IH; auto.
Qed.

Lemma scalper_loop_total pd n : forall p trades g,
  well_formed pd ->
  exists trades' p' g', scalper_loop n p pd trades g = Some (trades', p', g').
Proof.
  induction n as [|n IH]; intros p trades g Hwf; simpl.
  - eexists _, _, _; reflexivity.
  - destruct (Rleb (balance p) 0) eqn:Eb; [eexists _, _, _; reflexivity|].
    assert (balance p <> 0).
    { intros H0. rewrite Rleb_true in Eb by lra. discriminate. }
    destruct (scalper_trade_total p pd g Hwf H) as (p1 & o & g1 & E).
    rewrite (bind_eq _ _ _ _ _ E). apply IH; auto.
Qed.

Lemma strategy_total name strategy p pd g :
  In (name, strategy) player_types -> well_formed pd ->
  exists trades p' g', strategy p pd g = Some (trades, p', g').
Proof.
  unfold player_types. simpl.
  intros [E | [E | [E | [E | []]]]]; injection E as _ <-; intros Hwf.
  - unfold random_trader.
    destruct (choices_total 0%Z [1; 2; 3; 4; 5]%Z [10; 30; 25; 20; 10; 5]%Z g)
      as (n & g1 & E).
    rewrite (bind_eq (choices _ _) _ _ _ _ E).
    apply random_trader_loop_total; auto.
  - unfold buy_and_hold.
    destruct (buy_and_hold_position_total p pd g Hwf) as (p1 & o & g1 & E).
    rewrite (bind_eq _ _ _ _ _ E). eexists _, _, _; reflexivity.
  - unfold scalper.
    destruct (randint_ok 5 15 g ltac:(lia)) as (n & g1 & E & _).
    rewrite (bind_eq _ _ _ _ _ E).
    apply scalper_loop_total; auto.
  - unfold dip_buyer.
    destruct (dip_buyer_position_total p pd g Hwf) as (p1 & o & g1 & E).
    rewrite (bind_eq _ _ _ _ _ E). eexists _, _, _; reflexivity.
Qed.

End Totality.

(** ** The simulation returns *)

Section RunTotality.
Context {RS : RandomSource} {RL : RandomLaws RS}.

Lemma step_keeps_type f r p pd g p' o g' :
  In (f, r) position_steps -> True ->
  dict_get player_types (type p) <> None ->
  f p pd g = Some (p', o, g') ->
  dict_get player_types (type p') <> None.
Proof.
  intros Hf _ Ht H.
  pose proof (position_step_result f r p pd g p' o g' Hf H) as S.
  destruct o as [|s|t]; simpl in S.
  - now subst.
  - destruct S as (_ & ->). exact Ht.
  - destruct S as (-> & _). exact Ht.
Qed.

Lemma play_players_total pd players : forall fees g,
  well_formed pd ->
  Forall (fun p => dict_get player_types (type p) <> None) players ->
  exists players' fees' g', play_players players pd fees g = Some (players', fees', g').
Proof.
  induction players as [|p rest IH]; intros fees g Hwf Hk; cbn [play_players].
  - eexists _, _, _; reflexivity.
  - inversion Hk as [|? ? Hp Hrest]; subst.
    destruct (Rleb (balance p) 0).
    + destruct (IH fees g Hwf Hrest) as (ps & f1 & g1 & E).
      rewrite (bind_eq _ _ _ _ _ E). eexists _, _, _; reflexivity.
    + destruct (dict_get player_types (type p)) as [strategy|] eqn:Ed;
        [|contradiction].
      apply dict_get_In in Ed.
      destruct (strategy_total _ strategy p pd g Ed Hwf) as (trades & p1 & g1 & E).
      rewrite (bind_eq _ _ _ _ _ E).
      destruct (IH (collect_fees fees trades) g1 Hwf Hrest) as (ps & f1 & g2 & E2).
      rewrite (bind_eq _ _ _ _ _ E2). eexists _, _, _; reflexivity.
Qed.

Lemma simulate_round_total n players g :
  (0 <= n <= 4294967295)%Z ->
  Forall (fun p => dict_get player_types (type p) <> None) players ->
  exists players' rd g', simulate_round n players g = Some (players', rd, g').
Proof.
  intros Hn Hk. unfold simulate_round.
  assert (Hs : seed_accepted (Some n) = true).
  { simpl. apply andb_true_intro. split; apply Z.leb_le; lia. }
  destruct (generate_total (Some n) g Hs) as (pd & g1 & E).
  rewrite (bind_eq _ _ _ _ _ E).
  apply generate_well_formed in E.
  destruct (play_players_total pd players 0 g1 E Hk) as (ps & fees & g2 & E2).
  rewrite (bind_eq _ _ _ _ _ E2).
  destruct (wf_index pd 0 E) as (c0 & Hc0 & Hok0);
    [unfold ROUND_DURATION_CANDLES; lia|].
  rewrite (bind_eq _ _ _ _ _ (close_at_eq pd 0 c0 g2 Hc0)).
  destruct (wf_last pd E) as (c1 & Hc1 & _).
  rewrite (bind_eq _ _ _ _ _ (close_at_eq pd (-1) c1 g2 Hc1)).
  rewrite (bind_eq _ _ _ _ _ (pdiv_eq _ _ g2 (candle_ok_close c0 Hok0))).
  eexists _, _, _; reflexivity.
Qed.

Lemma reset_keeps_type p :
  dict_get player_types (type p) <> None ->
  dict_get player_types (type (reset_round_liquidations p)) <> None.
Proof. now destruct (reset_fields p) as (_ & _ & _ & _ & ->). Qed.

Lemma simulate_rounds_total nums : forall players hp rds g,
  Forall (fun n => (0 <= n <= 4294967295)%Z) nums ->
  Forall (fun p => dict_get player_types (type p) <> None) players ->
  exists result g', simulate_rounds nums players hp rds g = Some (result, g').
Proof.
  induction nums as [|n rest IH]; intros players hp rds g Hn Hk; simpl.
  - eexists _, _; reflexivity.
  - inversion Hn as [|? ? Hn1 Hn2]; subst.
    destruct (simulate_round_total n players g Hn1 Hk) as (ps & rd & g1 & E).
    rewrite (bind_eq _ _ _ _ _ E). apply IH; [exact Hn2|].
    eapply (simulate_round_keeps (fun _ => True)); [ | | | exact Hk | exact E].
    + intros; eapply step_keeps_type; eauto.
    + exact reset_keeps_type.
    + trivial.
Qed.

Lemma initial_players_known k :
  Forall (fun p => dict_get player_types (type p) <> None) (initial_players k).
Proof.
  unfold initial_players. apply Forall_forall. intros p Hp.
  apply in_flat_map in Hp as (kv & Hkv & Hp). apply repeat_spec in Hp. subst p.
  unfold player_types in Hkv. simpl in Hkv.
  destruct Hkv as [<- | [<- | [<- | [<- | []]]]]; discriminate.
Qed.

(** Under the laws of the random source a run of at most 2^32 rounds
    returns: beyond that, the round index is a seed numpy refuses. *)
Lemma run_trading_simulation_total n k g :
  (n <= 4294967296)%Z ->
  exists result g', run_trading_simulation n k g = Some (result, g').
Proof.
  intros Hn. apply simulate_rounds_total; [|apply initial_players_known].
  apply Forall_forall. intros i Hi. apply zrange_In in Hi. lia.
Qed.

End RunTotality.

(** ** The concrete random sources *)

Lemma fixed_laws u : 0 <= u < 1 -> RandomLaws (fixed_source u).
Proof.
  intros Hu. constructor; simpl.
  - intros _. exact Hu.
  - intros a b g H. apply Z.leb_le in H. rewrite H. eauto.
  - intros a b g n g'. destruct (a <=? b)%Z eqn:E; [|discriminate].
    intros H; injection H as <- _. apply Z.leb_le in E. lia.
  - intros x l g. eauto.
  - intros [|x l] g y g'; [discriminate|]. intros H; injection H as <- _. now left.
  - intros x l w g. eauto.
  - intros [|x l] w g y g'; [discriminate|]. intros H; injection H as <- _. now left.
Qed.

Lemma steady_laws : RandomLaws steady_source.
Proof.
  constructor; simpl.
  - intros [|]; simpl; lra.
  - intros a b g H. apply Z.leb_le in H. rewrite H. eauto.
  - intros a b g n g'. destruct (a <=? b)%Z eqn:E; [|discriminate].
    intros H; injection H as <- _. apply Z.leb_le in E. lia.
  - intros x l g. eauto.
  - intros [|x l] g y g'; [discriminate|]. intros H; injection H as <- _. now left.
  - intros x l w g. eauto.
  - intros [|x l] w g y g'; [discriminate|]. intros H; injection H as <- _. now left.
Qed.

Lemma zrange_cons lo hi : (lo < hi)%Z -> zrange lo hi = lo :: zrange (lo + 1) hi.
Proof.
  intros H. unfold zrange.
  replace (Z.to_nat (hi - lo)) with (S (Z.to_nat (hi - (lo + 1)))) by lia.
  simpl. f_equal; [lia|].
  rewrite <- seq_shift, map_map. apply map_ext. intros k. lia.
Qed.

Lemma flat_prices_well_formed : well_formed flat_prices.
Proof.
  split.
  - unfold len, flat_prices. now rewrite length_map, zrange_length.
  - unfold flat_prices. apply Forall_map, Forall_forall. intros i _.
    unfold candle_ok, flat_candle; simpl.
    unfold Rmin, Rmax. destruct (Rle_dec 10 10); lra.
Qed.

Lemma well_formed_positive pd : well_formed pd -> positive_closes pd.
Proof.
  intros [_ H]. unfold positive_closes.
  eapply Forall_impl; [|exact H]. intros c Hc. apply Hc.
Qed.

Section RiskFloor.
Context {RS : RandomSource}.

Lemma base_chance_pos c : (GRACE_PERIOD_CANDLES < c)%Z -> 0 < base_chance c.
Proof.
  unfold base_chance, GRACE_PERIOD_CANDLES, RAMP_UP_PERIOD. intros H.
  destruct (c - 150 <? 75)%Z; [|lra].
  assert (1 <= IZR (c - 150)) by (apply (IZR_le 1); lia).
  assert (0 < IZR (c - 150) / 75) by (apply Rdiv_lt_0_compat; lra).
  lra.
Qed.

Lemma composed_risk_ge_base c d s p : base_chance c <= composed_risk c d s p.
Proof.
  unfold composed_risk. destruct d as [d|]; [|lra].
  pose proof (time_risk_bounds d) as Ht.
  destruct (60 <? d)%Z;
    (destruct (truthy_gt s 0.7) eqn:Es;
       [apply truthy_gt_inv, size_risk_bounds in Es|]);
    (destruct (truthy_gt p 0.3) eqn:Ep;
       [apply truthy_gt_inv, greed_risk_bounds in Ep|]); lra.
Qed.

End RiskFloor.

(** *** A stream of zeros liquidates at once *)

Lemma check_liquidation_fixed u c d s p :
  (GRACE_PERIOD_CANDLES <= c)%Z ->
  check_liquidation (RS := fixed_source u) c d s p tt =
  Some (Rltb u (Rmin 0.01 (composed_risk c d s p * (0.7 + u * 0.8))), tt).
Proof.
  intros H. unfold check_liquidation.
  rewrite (bind_eq _ _ _ _ _
             (calculate_liquidation_probability_after (RS := fixed_source u)
                c d s p tt H)).
  reflexivity.
Qed.

Lemma check_liquidation_zero c d s p :
  (GRACE_PERIOD_CANDLES < c)%Z ->
  check_liquidation (RS := fixed_source 0) c d s p tt = Some (true, tt).
Proof.
  intros H. rewrite check_liquidation_fixed by lia.
  rewrite Rltb_true; [reflexivity|].
  pose proof (base_chance_pos c H). pose proof (composed_risk_ge_base c d s p).
  apply Rmin_glb_lt; [lra|]. apply Rmult_lt_0_compat; lra.
Qed.

Section Stepping.
Context {RS : RandomSource}.

Lemma hold_position_cons p pd r ec ep ps c rest g x :
  py_index pd c = Some x -> ep <> 0 -> balance p <> 0 ->
  hold_position p pd r ec ep ps (c :: rest) g =
  (liquidated <- check_liquidation c (Some (c - ec)%Z) (Some r)
                   (Some ((close x - ep) * (ps / ep) / balance p)) ;;
   if liquidated then ret true
   else hold_position p pd r ec ep ps rest) g.
Proof.
  intros Hx Hep Hb. cbn [hold_position].
  rewrite (bind_eq _ _ _ _ _ (close_at_eq pd c x g Hx)).
  rewrite (bind_eq _ _ _ _ _ (pdiv_eq _ _ g Hep)).
  rewrite (bind_eq _ _ _ _ _ (pdiv_eq _ _ g Hb)).
  reflexivity.
Qed.

Lemma hold_and_close_liquidated p pd r ec ep ps candles xi xc g g1 :
  hold_position p pd r ec ep ps candles g = Some (true, g1) ->
  hold_and_close p pd r ec ep ps candles xi xc g =
  Some (liquidate p ps, Liquidated ps, g1).
Proof.
  intros H. unfold hold_and_close. rewrite (bind_eq _ _ _ _ _ H). reflexivity.
Qed.

Lemma hold_and_close_exited p pd r ec ep ps candles xi xc g g1 cx :
  hold_position p pd r ec ep ps candles g = Some (false, g1) ->
  py_index pd xi = Some cx -> ep <> 0 ->
  exists t,
    hold_and_close p pd r ec ep ps candles xi xc g =
    Some (credit p t, Exited t, g1).
Proof.
  intros H Hx Hep. unfold hold_and_close. rewrite (bind_eq _ _ _ _ _ H).
  rewrite (bind_eq _ _ _ _ _ (close_at_eq pd xi cx g1 Hx)).
  rewrite (bind_eq _ _ _ _ _ (pdiv_eq _ _ g1 Hep)).
  eexists. reflexivity.
Qed.

End Stepping.

Lemma hold_position_zero p pd r ec ep ps c rest x :
  (GRACE_PERIOD_CANDLES < c)%Z ->
  py_index pd c = Some x -> ep <> 0 -> balance p <> 0 ->
  hold_position (RS := fixed_source 0) p pd r ec ep ps (c :: rest) tt =
  Some (true, tt).
Proof.
  intros Hc Hx Hep Hb.
  rewrite (hold_position_cons (RS := fixed_source 0) p pd r ec ep ps c rest tt x)
    by assumption.
  erewrite bind_eq by (apply check_liquidation_zero; exact Hc).
  reflexivity.
Qed.

Lemma buy_and_hold_position_zero p pd :
  well_formed pd -> 0 < balance p ->
  buy_and_hold_position (RS := fixed_source 0) p pd tt =
  Some (liquidate p (balance p * POSITION_SIZE_RATIO),
        Liquidated (balance p * POSITION_SIZE_RATIO), tt).
Proof.
  intros Hwf Hb. pose proof Hwf as [Hlen _].
  unfold buy_and_hold_position.
  rewrite Rleb_false by exact Hb.
  destruct (wf_index pd 160 Hwf) as (ce & Hce & Hok);
    [unfold ROUND_DURATION_CANDLES; lia|].
  change (GRACE_PERIOD_CANDLES + 10)%Z with 160%Z.
  rewrite Hlen. unfold ROUND_DURATION_CANDLES.
  rewrite zrange_cons by lia.
  rewrite (bind_eq _ _ _ _ _ (close_at_eq (RS := fixed_source 0) pd 160 ce tt Hce)).
  apply (hold_and_close_liquidated (RS := fixed_source 0)).
  apply (hold_position_zero p pd _ _ _ _ _ _ ce); auto.
  - unfold GRACE_PERIOD_CANDLES; lia.
  - now apply candle_ok_close.
  - lra.
Qed.

Lemma buy_and_hold_zero p pd :
  well_formed pd -> 0 < balance p ->
  buy_and_hold (RS := fixed_source 0) p pd tt =
  Some ([], liquidate p (balance p * POSITION_SIZE_RATIO), tt).
Proof.
  intros Hwf Hb. unfold buy_and_hold.
  rewrite (bind_eq _ _ _ _ _ (buy_and_hold_position_zero p pd Hwf Hb)).
  reflexivity.
Qed.

Lemma initial_players_one :
  initial_players (RS := fixed_source 0) 1 =
  [ new_player "random" 1000; new_player "hodl" 1000;
    new_player "scalper" 1000; new_player "dip_buyer" 1000 ].
Proof. reflexivity. Qed.

Lemma play_players_cons (RS : RandomSource) p rest pd fees g name strategy
    trades p' g1 players' fees' g2 :
  0 < balance p ->
  type p = name -> In (name, strategy) player_types ->
  dict_get player_types name = Some strategy ->
  strategy p pd g = Some (trades, p', g1) ->
  play_players rest pd (collect_fees fees trades) g1 = Some (players', fees', g2) ->
  play_players (p :: rest) pd fees g = Some (p' :: players', fees', g2).
Proof.
  intros Hb Ht _ Hd Hs Hr. cbn [play_players].
  rewrite Rleb_false by exact Hb. rewrite Ht, Hd.
  rewrite (bind_eq _ _ _ _ _ Hs). rewrite (bind_eq _ _ _ _ _ Hr). reflexivity.
Qed.

Lemma zero_round :
  exists p1 p3 p4 hp rd,
    run_trading_simulation (RS := fixed_source 0) 1 1 tt =
    Some ([ p1;
            reset_round_liquidations
              (liquidate (new_player "hodl" 1000) (1000 * POSITION_SIZE_RATIO));
            p3; p4 ], hp, [rd], tt).
Proof.
  pose proof (fixed_laws 0 ltac:(lra)) as RL.
  unfold run_trading_simulation. rewrite initial_players_one.
  rewrite zrange_cons by lia. change (zrange (0 + 1) 1) with (@nil Z).
  cbn [simulate_rounds].
  destruct (generate_total (RS := fixed_source 0) (Some 0%Z) tt eq_refl)
    as (pd & [] & Eg).
  pose proof (generate_well_formed _ _ _ _ Eg) as Hwf.
  destruct (strategy_total (RS := fixed_source 0) "random" random_trader
              (new_player "random" 1000) pd tt ltac:(simpl; tauto) Hwf)
    as (t1 & p1 & [] & E1).
  pose proof (buy_and_hold_zero (new_player "hodl" 1000) pd Hwf ltac:(simpl; lra))
    as E2.
  destruct (strategy_total (RS := fixed_source 0) "scalper" scalper
              (new_player "scalper" 1000) pd tt ltac:(simpl; tauto) Hwf)
    as (t3 & p3 & [] & E3).
  destruct (strategy_total (RS := fixed_source 0) "dip_buyer" dip_buyer
              (new_player "dip_buyer" 1000) pd tt ltac:(simpl; tauto) Hwf)
    as (t4 & p4 & [] & E4).
  assert (Ep : play_players (RS := fixed_source 0)
                 [ new_player "random" 1000; new_player "hodl" 1000;
                   new_player "scalper" 1000; new_player "dip_buyer" 1000 ]
                 pd 0 tt
               = Some ([p1; liquidate (new_player "hodl" 1000)
                              (1000 * POSITION_SIZE_RATIO); p3; p4],
                       collect_fees (collect_fees (collect_fees
                         (collect_fees 0 t1) []) t3) t4, tt)).
  { eapply play_players_cons; [simpl; lra | reflexivity | | reflexivity | exact E1 | ].
    { simpl; tauto. }
    eapply play_players_cons; [simpl; lra | reflexivity | | reflexivity | exact E2 | ].
    { simpl; tauto. }
    eapply play_players_cons; [simpl; lra | reflexivity | | reflexivity | exact E3 | ].
    { simpl; tauto. }
    eapply play_players_cons; [simpl; lra | reflexivity | | reflexivity | exact E4 | ].
    { simpl; tauto. }
    reflexivity. }
  destruct (wf_index pd 0 Hwf) as (c0 & Hc0 & Hok0);
    [unfold ROUND_DURATION_CANDLES; lia|].
  destruct (wf_last pd Hwf) as (c1 & Hc1 & _).
  assert (Er : exists rd,
             simulate_round (RS := fixed_source 0) 0
               [ new_player "random" 1000; new_player "hodl" 1000;
                 new_player "scalper" 1000; new_player "dip_buyer" 1000 ] tt
             = Some (map reset_round_liquidations
                       [p1; liquidate (new_player "hodl" 1000)
                              (1000 * POSITION_SIZE_RATIO); p3; p4], rd, tt)).
  { unfold simulate_round.
    rewrite (bind_eq _ _ _ _ _ Eg).
    rewrite (bind_eq _ _ _ _ _ Ep).
    rewrite (bind_eq _ _ _ _ _ (close_at_eq (RS := fixed_source 0) pd 0 c0 tt Hc0)).
    rewrite (bind_eq _ _ _ _ _ (close_at_eq (RS := fixed_source 0) pd (-1) c1 tt Hc1)).
    rewrite (bind_eq _ _ _ _ _
               (pdiv_eq (RS := fixed_source 0) _ _ tt (candle_ok_close c0 Hok0))).
    eexists. reflexivity. }
  destruct Er as (rd & Er).
  rewrite (bind_eq _ _ _ _ _ Er).
  eexists _, _, _, _, _. reflexivity.
Qed.

(** ** The liquidation count of a round *)

Section RoundCount.
Context {RS : RandomSource}.

Lemma step_keeps_noattr f r p pd g p' o g' :
  In (f, r) position_steps -> True ->
  has_round_liquidations p = false ->
  f p pd g = Some (p', o, g') ->
  has_round_liquidations p' = false.
Proof.
  intros Hf _ Hn H.
  pose proof (position_step_result f r p pd g p' o g' Hf H) as S.
  destruct o as [|s|t]; simpl in S.
  - now subst.
  - destruct S as (_ & ->). exact Hn.
  - destruct S as (-> & _). exact Hn.
Qed.

Lemma reset_noattr p :
  has_round_liquidations p = false ->
  has_round_liquidations (reset_round_liquidations p) = false.
Proof. intros H. unfold reset_round_liquidations. now rewrite H. Qed.

Lemma count_round_liquidations_zero ps :
  Forall (fun p => has_round_liquidations p = false) ps ->
  count_round_liquidations ps = 0%Z.
Proof.
  unfold count_round_liquidations, len.
  induction 1 as [|p rest Hp _ IH]; simpl; [reflexivity|].
  rewrite Hp. exact IH.
Qed.

Lemma simulate_round_records_zero n players g players' rd g' :
  Forall (fun p => has_round_liquidations p = false) players ->
  simulate_round n players g = Some (players', rd, g') ->
  liquidations rd = 0%Z.
Proof.
  intros Hn H. unfold simulate_round in H.
  bind_inv H. bind_inv H. destruct a0 as [ps fees].
  do 3 bind_inv H. apply ret_Some in H as [H _]. injection H as _ <-. simpl.
  apply count_round_liquidations_zero.
  eapply (play_players_keeps (fun _ => True)); [ | | | exact E0]; auto.
  intros; eapply step_keeps_noattr; eauto.
Qed.

Lemma simulate_rounds_records_zero nums :
  forall players hp rds g players' hp' rds' g',
  Forall (fun p => has_round_liquidations p = false) players ->
  Forall (fun rd => liquidations rd = 0%Z) rds ->
  simulate_rounds nums players hp rds g = Some (players', hp', rds', g') ->
  Forall (fun rd => liquidations rd = 0%Z) rds'.
Proof.
  induction nums as [|n rest IH];
    intros players hp rds g players' hp' rds' g' Hn Hz H; simpl in H.
  - apply ret_Some in H as [H _]. now injection H as _ _ <-.
  - bind_inv H. destruct a as [ps rd].
    eapply IH; [ | | exact H].
    + eapply (simulate_round_keeps (fun _ => True)); [ | | | exact Hn | exact E].
      * intros; eapply step_keeps_noattr; eauto.
      * exact reset_noattr.
      * trivial.
    + apply Forall_app. split; [exact Hz|]. constructor; [|constructor].
      eapply simulate_round_records_zero; eauto.
Qed.

(** No call ever attaches [_round_liquidations]: every round of every run
    records a liquidation count of 0. *)
Lemma recorded_liquidations_zero n k g players hp rds g' :
  run_trading_simulation n k g = Some (players, hp, rds, g') ->
  Forall (fun rd => liquidations rd = 0%Z) rds.
Proof.
  unfold run_trading_simulation. intros H.
  eapply simulate_rounds_records_zero; [ | | exact H].
  - apply initial_players_Forall. reflexivity.
  - constructor.
Qed.

Lemma step_keeps_count f r p pd g p' o g' :
  In (f, r) position_steps -> True ->
  (0 <= liquidations_suffered p)%Z ->
  f p pd g = Some (p', o, g') ->
  (0 <= liquidations_suffered p')%Z.
Proof.
  intros Hf _ Hn H.
  pose proof (position_step_result f r p pd g p' o g' Hf H) as S.
  destruct o as [|s|t]; simpl in S.
  - now subst.
  - destruct S as (_ & ->). simpl. lia.
  - destruct S as (-> & _). exact Hn.
Qed.

Lemma run_counts_nonnegative n k g players hp rds g' :
  run_trading_simulation n k g = Some (players, hp, rds, g') ->
  Forall (fun p => (0 <= liquidations_suffered p)%Z) players.
Proof.
  unfold run_trading_simulation. intros H.
  eapply (simulate_rounds_keeps (fun _ => True)); [ | | | | exact H].
  - intros; eapply step_keeps_count; eauto.
  - intros p Hp. now destruct (reset_fields p) as (_ & _ & _ & -> & _).
  - trivial.
  - apply initial_players_Forall. intros; simpl; lia.
Qed.

End RoundCount.

(** C3, at a failing input: one round with one player per strategy on a
    stream of zeros.  The buy-and-hold player is liquidated at candle 160,
    so the players' liquidation counters rise by at least 1 in the round,
    and the round records 0 liquidations. *)
Theorem round_liquidations_not_counted :
  exists players hp rd,
    run_trading_simulation (RS := fixed_source 0) 1 1 tt
      = Some (players, hp, [rd], tt) /\
    liquidations rd = 0%Z /\
    (1 <= sum_Z (map liquidations_suffered players)
          - sum_Z (map liquidations_suffered
                     (initial_players (RS := fixed_source 0) 1)))%Z.
Proof.
  destruct zero_round as (p1 & p3 & p4 & hp & rd & E).
  eexists _, hp, rd. split; [exact E|]. split.
  - pose proof (recorded_liquidations_zero _ _ _ _ _ _ _ E) as Hz.
    now inversion Hz.
  - pose proof (run_counts_nonnegative _ _ _ _ _ _ _ E) as Hn.
    inversion Hn as [|? ? H1 Hn1]; subst.
    inversion Hn1 as [|? ? _ Hn2]; subst.
    inversion Hn2 as [|? ? H3 Hn3]; subst.
    inversion Hn3 as [|? ? H4 _]; subst.
    rewrite initial_players_one. unfold sum_Z. cbn [map fold_right].
    change (liquidations_suffered
              (reset_round_liquidations
                 (liquidate (new_player "hodl" 1000) (1000 * POSITION_SIZE_RATIO))))
      with 1%Z.
    change (liquidations_suffered (new_player _ 1000)) with 0%Z.
    lia.
Qed.

(** ** Realized losses *)

Section Losses.
Context {RS : RandomSource} {RL : RandomLaws RS}.

Lemma step_keeps_losses f r p pd g p' o g' :
  In (f, r) position_steps -> positive_closes pd ->
  0 < balance p /\ 0 <= ledger_realized_losses (ledger p) ->
  f p pd g = Some (p', o, g') ->
  0 < balance p' /\ 0 <= ledger_realized_losses (ledger p').
Proof.
  intros Hf Hpd [Hb Hl] H. split; [eapply step_keeps_positive; eauto|].
  pose proof (position_step_result f r p pd g p' o g' Hf H) as S.
  apply step_ratio in Hf.
  destruct o as [|s|t]; simpl in S.
  - now subst.
  - destruct S as (-> & ->). simpl. destruct Hf as [-> | ->]; lra.
  - destruct S as (-> & _). simpl.
    destruct (Rltb (net_pnl t) 0) eqn:E; [apply Rltb_spec in E|]; lra.
Qed.

Lemma run_losses_nonnegative n k g players hp rds g' :
  run_trading_simulation n k g = Some (players, hp, rds, g') ->
  Forall (fun p => 0 < balance p /\ 0 <= ledger_realized_losses (ledger p)) players.
Proof.
  unfold run_trading_simulation. intros H.
  eapply (simulate_rounds_keeps positive_closes); [ | | | | exact H].
  - intros; eapply step_keeps_losses; eauto.
  - intros p Hp. now destruct (reset_fields p) as (-> & _ & -> & _).
  - intros; eapply generate_positive_closes; eauto.
  - apply initial_players_Forall. intros; simpl; lra.
Qed.

End Losses.

(** C9 as stated, refuted: in the round on a stream of zeros the
    buy-and-hold player forfeits 200, a realized loss already taken out of
    the balance; adding it to the sum of balances breaks the equation. *)
Lemma stated_equation_fails :
  exists players hp rds,
    run_trading_simulation (RS := fixed_source 0) 1 1 tt
      = Some (players, hp, rds, tt) /\
    ~ stated_equation players.
Proof.
  destruct zero_round as (p1 & p3 & p4 & hp & rd & E).
  eexists _, hp, [rd]. split; [exact E|].
  pose proof (run_keeps_conserved _ _ _ _ _ _ _ E) as Hc.
  apply conserved_sum in Hc.
  pose proof (run_losses_nonnegative (RS := fixed_source 0)
                (RL := fixed_laws 0 ltac:(lra))
                _ _ _ _ _ _ _ E) as Hl.
  inversion Hl as [|? ? [_ H1] Hl1]; subst.
  inversion Hl1 as [|? ? _ Hl2]; subst.
  inversion Hl2 as [|? ? [_ H3] Hl3]; subst.
  inversion Hl3 as [|? ? [_ H4] _]; subst.
  unfold stated_equation. rewrite Hc. clear Hc.
  unfold sum_R. cbn [map fold_right].
  change (ledger_realized_losses
            (ledger (reset_round_liquidations
               (liquidate (new_player "hodl" 1000) (1000 * POSITION_SIZE_RATIO)))))
    with (1000 * POSITION_SIZE_RATIO + 0).
  unfold POSITION_SIZE_RATIO. lra.
Qed.

(** *** A stream of halves never liquidates *)

Lemma check_liquidation_half c d s p :
  check_liquidation (RS := fixed_source (1 / 2)) c d s p tt = Some (false, tt).
Proof.
  destruct (Z_lt_le_dec c GRACE_PERIOD_CANDLES) as [H|H].
  - unfold check_liquidation.
    rewrite (bind_eq _ _ _ _ _
               (calculate_liquidation_probability_grace
                  (RS := fixed_source (1 / 2)) c d s p tt H)).
    unfold bind, random, ret; simpl. rewrite Rltb_false by lra. reflexivity.
  - rewrite check_liquidation_fixed by exact H.
    rewrite Rltb_false; [reflexivity|].
    eapply Rle_trans; [apply Rmin_l | lra].
Qed.

Lemma hold_position_half p pd r ec ep ps candles :
  (forall c, In c candles -> (0 <= c < len pd)%Z) ->
  ep <> 0 -> balance p <> 0 ->
  hold_position (RS := fixed_source (1 / 2)) p pd r ec ep ps candles tt
  = Some (false, tt).
Proof.
  intros Hin Hep Hb. induction candles as [|c rest IH]; [reflexivity|].
  destruct (py_index_range pd c (Hin c (or_introl eq_refl))) as (x & Hx).
  rewrite (hold_position_cons (RS := fixed_source (1 / 2)) p pd r ec ep ps c rest tt x)
    by assumption.
  rewrite (bind_eq _ _ _ _ _ (check_liquidation_half _ _ _ _)).
  apply IH. intros c' Hc'. apply Hin. now right.
Qed.

Lemma scalper_trade_half p pd :
  well_formed pd -> balance p <> 0 ->
  exists t,
    scalper_trade (RS := fixed_source (1 / 2)) p pd tt
    = Some (credit p t, Exited t, tt).
Proof.
  intros Hwf Hb. pose proof Hwf as [Hlen _]. unfold scalper_trade.
  rewrite Hlen.
  rewrite (bind_eq (RS := fixed_source (1 / 2)) _ _ tt 150%Z tt eq_refl).
  rewrite (bind_eq (RS := fixed_source (1 / 2)) _ _ tt 5%Z tt eq_refl).
  change (Z.min (150 + 5) (ROUND_DURATION_CANDLES - 1)) with 155%Z.
  destruct (wf_index pd 150 Hwf) as (ce & Hce & Hok);
    [unfold ROUND_DURATION_CANDLES; lia|].
  destruct (wf_index pd 155 Hwf) as (cx & Hcx & _);
    [unfold ROUND_DURATION_CANDLES; lia|].
  rewrite (bind_eq _ _ _ _ _
             (close_at_eq (RS := fixed_source (1 / 2)) pd 150 ce tt Hce)).
  eapply (hold_and_close_exited (RS := fixed_source (1 / 2)));
    [|exact Hcx | now apply candle_ok_close].
  apply hold_position_half; [|now apply candle_ok_close | exact Hb].
  intros c Hc. apply zrange_In in Hc. rewrite Hlen.
  unfold ROUND_DURATION_CANDLES. lia.
Qed.

Lemma scalper_loop_half pd n : forall p,
  well_formed pd -> 0 < balance p ->
  exists p',
    scalper_loop (RS := fixed_source (1 / 2)) n p pd [] tt = Some ([], p', tt) /\
    total_trades p' = (total_trades p + Z.of_nat n)%Z /\
    liquidations_suffered p' = liquidations_suffered p /\
    0 < balance p'.
Proof.
  induction n as [|n IH]; intros p Hwf Hb.
  - exists p. repeat split; [lia | exact Hb].
  - cbn [scalper_loop]. rewrite Rleb_false by exact Hb.
    destruct (scalper_trade_half p pd Hwf ltac:(lra)) as (t & E).
    rewrite (bind_eq _ _ _ _ _ E).
    assert (Hb1 : 0 < balance (credit p t)).
    { eapply (step_keeps_positive (RS := fixed_source (1 / 2)) scalper_trade);
        [right; right; left; reflexivity | | exact Hb | exact E].
      now apply well_formed_positive. }
    destruct (IH (credit p t) Hwf Hb1) as (p' & E' & Ht & Hl & Hb').
    exists p'. split; [exact E'|]. split; [|split; [exact Hl | exact Hb']].
    rewrite Ht. simpl. lia.
Qed.

(** C2, at a failing input: the scalper with balance 1000 on a flat price
    path and a stream of halves completes five normal exits, none of its
    positions is liquidated, and it returns no Trade record: the list has
    length 0 while the trade counter rose by 5. *)
Theorem scalper_reports_no_trades :
  exists trades p',
    scalper (RS := fixed_source (1 / 2)) (new_player "scalper" 1000)
      flat_prices tt = Some (trades, p', tt) /\
    len trades = 0%Z /\
    (total_trades p' - total_trades (new_player "scalper" 1000) = 5)%Z /\
    liquidations_suffered p' = liquidations_suffered (new_player "scalper" 1000).
Proof.
  destruct (scalper_loop_half flat_prices 5 (new_player "scalper" 1000)
              flat_prices_well_formed ltac:(simpl; lra)) as (p' & E & Ht & Hl & _).
  exists [], p'. split; [|split; [reflexivity|split]].
  - unfold scalper.
    rewrite (bind_eq (RS := fixed_source (1 / 2)) _ _ tt 5%Z tt eq_refl).
    exact E.
  - rewrite Ht. simpl. lia.
  - exact Hl.
Qed.

(** ** Seeding *)

Section Seeding.
Context {RS : RandomSource}.

(** A non-zero seed fixes the sequence, whatever the stream was before. *)
Lemma seeded_generation_deterministic n g1 g2 :
  n <> 0%Z ->
  generate_realistic_price_data (Some n) g1 =
  generate_realistic_price_data (Some n) g2.
Proof.
  intros Hn. rewrite (generate_from_start (Some n) g1).
  rewrite (generate_from_start (Some n) g2). unfold start_state.
  destruct (n =? 0)%Z eqn:E; [apply Z.eqb_eq in E; contradiction | reflexivity].
Qed.

(** Seed 0 is not passed to [random.seed]: the call draws from the state
    it finds. *)
Lemma zero_seed_ignored g :
  generate_realistic_price_data (Some 0%Z) g =
  generate_realistic_price_data None g.
Proof. reflexivity. Qed.

Context {RL : RandomLaws RS}.

Lemma generate_first_open s g data g' :
  generate_realistic_price_data s g = Some (data, g') ->
  exists c rest, data = c :: rest /\
                 open c = 10 + fst (rng_random (start_state s g)) * 5.
Proof.
  intros H0. apply generate_returned in H0 as [_ H0]. revert H0.
  generalize (start_state s g) as g0.
  intros g0 H. unfold generate_realistic_price_data in H.
  bind_inv H. apply ret_Some in E as [_ <-].
  bind_inv H. pose proof (random_draw _ _ _ E) as Hu.
  apply random_Some in E as [-> _].
  do 6 bind_inv H.
  apply generate_candles_ok in H as (_ & _ & Ho & Hi); [|lra].
  destruct data as [|c rest].
  - rewrite zrange_cons in Hi by (unfold ROUND_DURATION_CANDLES; lia).
    discriminate.
  - eauto.
Qed.

End Seeding.

(** C7, at a failing input: seed 0.  On the two-state source the call with
    seed 0 returns one sequence from state [true] and another from state
    [false]: the first candle opens at 12.5 in one and at 10 in the other. *)
Theorem seed_zero_not_deterministic :
  exists d1 d2 g1 g2,
    generate_realistic_price_data (RS := steady_source) (Some 0%Z) true
      = Some (d1, g1) /\
    generate_realistic_price_data (RS := steady_source) (Some 0%Z) false
      = Some (d2, g2) /\
    d1 <> d2.
Proof.
  destruct (generate_total (RS := steady_source) (RL := steady_laws)
              (Some 0%Z) true eq_refl) as (d1 & g1 & E1).
  destruct (generate_total (RS := steady_source) (RL := steady_laws)
              (Some 0%Z) false eq_refl) as (d2 & g2 & E2).
  exists d1, d2, g1, g2. repeat split; auto.
  destruct (generate_first_open (RS := steady_source) (RL := steady_laws)
              _ _ _ _ E1) as (c1 & r1 & -> & H1).
  destruct (generate_first_open (RS := steady_source) (RL := steady_laws)
              _ _ _ _ E2) as (c2 & r2 & -> & H2).
  simpl in H1, H2. intros Heq. injection Heq as -> _. lra.
Qed.

(** ** The theorems at concrete inputs *)

(** Candle 200, a position held for 70 candles, on a stream of halves. *)
Lemma liquidation_probability_range_witness :
  exists prob g',
    calculate_liquidation_probability (RS := fixed_source (1 / 2)) 200
      (Some 70%Z) (Some 0.2) (Some 0.4) tt = Some (prob, g') /\
    0 <= prob <= 0.01.
Proof.
  apply (proj2 (liquidation_probability_range (RS := fixed_source (1 / 2)))).
  simpl. lra.
Defined.

Lemma composed_risk_monotone_in_duration_witness :
  composed_risk 200 (Some 50%Z) (Some 0.2) (Some 0.4)
  <= composed_risk 200 (Some 90%Z) (Some 0.2) (Some 0.4).
Proof.
  apply composed_risk_monotone_in_duration.
  - unfold GRACE_PERIOD_CANDLES. lia.
  - lia.
Defined.

(** A scalper position on the flat path, never liquidated. *)
Lemma normal_exit_accounting_witness :
  exists t p',
    scalper_trade (RS := fixed_source (1 / 2)) (new_player "scalper" 1000)
      flat_prices tt = Some (p', Exited t, tt) /\
    net_pnl t = gross_pnl t - fee t /\
    fee t = (1000 * (POSITION_SIZE_RATIO * 0.5)) * 0.002 /\
    balance p' = 1000 + net_pnl t /\
    total_trades p' = 1%Z.
Proof.
  destruct (scalper_trade_half (new_player "scalper" 1000) flat_prices
              flat_prices_well_formed ltac:(simpl; lra)) as (t & E).
  exists t, (credit (new_player "scalper" 1000) t).
  split; [exact E|].
  destruct (proj1 (normal_exit_accounting (RS := fixed_source (1 / 2)))
              scalper_trade (POSITION_SIZE_RATIO * 0.5)
              (new_player "scalper" 1000) flat_prices tt _ t tt
              ltac:(simpl; tauto) E)
    as (H1 & H2 & H3 & _ & H5 & _).
  repeat split; assumption.
Defined.

(** The buy-and-hold position on the flat path, liquidated at once. *)
Lemma liquidation_accounting_witness :
  exists p' s,
    buy_and_hold_position (RS := fixed_source 0) (new_player "hodl" 1000)
      flat_prices tt = Some (p', Liquidated s, tt) /\
    s = 1000 * POSITION_SIZE_RATIO /\
    balance p' = 1000 - s /\
    liquidations_suffered p' = 1%Z.
Proof.
  pose proof (buy_and_hold_position_zero (new_player "hodl" 1000) flat_prices
                flat_prices_well_formed ltac:(simpl; lra)) as E.
  eexists _, _. split; [exact E|].
  destruct (proj1 (liquidation_accounting (RS := fixed_source 0))
              buy_and_hold_position POSITION_SIZE_RATIO
              (new_player "hodl" 1000) flat_prices tt _ _ tt
              ltac:(simpl; tauto) E)
    as (H1 & H2 & H3 & _).
  repeat split; assumption.
Defined.

Lemma generated_candles_valid_witness :
  exists data g',
    generate_realistic_price_data (RS := fixed_source 0) (Some 42%Z) tt
      = Some (data, g') /\
    len data = ROUND_DURATION_CANDLES /\
    Forall (fun c =>
      low c <= Rmin (open c) (close c) /\
      Rmin (open c) (close c) <= Rmax (open c) (close c) /\
      Rmax (open c) (close c) <= high c /\
      0 < open c /\ 0 < high c /\ 0 < low c /\ 0 < close c) data /\
    chained data.
Proof.
  destruct (proj2 (generated_candles_valid (RS := fixed_source 0)
                     (RL := fixed_laws 0 ltac:(lra)))
              (Some 42%Z) tt eq_refl) as (data & g' & E).
  exists data, g'. split; [exact E|].
  exact (proj1 (generated_candles_valid (RS := fixed_source 0)
                  (RL := fixed_laws 0 ltac:(lra))) _ _ _ _ E).
Defined.

(** One round, one player per strategy, on a stream of zeros. *)
Lemma balances_conserved_witness :
  exists players hp rds,
    run_trading_simulation (RS := fixed_source 0) 1 1 tt
      = Some (players, hp, rds, tt) /\
    Forall (fun p =>
      balance p = initial_balance p + ledger_net (ledger p)
                  - ledger_liquidated (ledger p)) players.
Proof.
  destruct zero_round as (p1 & p3 & p4 & hp & rd & E).
  eexists _, _, _. split; [exact E|].
  exact (proj1 (balances_conserved (RS := fixed_source 0) _ _ _ _ _ _ _ E)).
Defined.

Lemma balance_stays_positive_witness :
  exists trades p',
    buy_and_hold (RS := fixed_source 0) (new_player "hodl" 1000) flat_prices tt
      = Some (trades, p', tt) /\
    0 < balance p'.
Proof.
  pose proof (buy_and_hold_zero (new_player "hodl" 1000) flat_prices
                flat_prices_well_formed ltac:(simpl; lra)) as E.
  eexists _, _. split; [exact E|].
  eapply (proj1 (balance_stays_positive (RS := fixed_source 0)
                   (RL := fixed_laws 0 ltac:(lra)))
            "hodl"%string buy_and_hold (new_player "hodl" 1000) flat_prices tt);
    [simpl; tauto | simpl; lra | | exact E].
  apply well_formed_positive, flat_prices_well_formed.
Defined.

(** * Further properties of the risk model *)

Section RiskExtras.
Context {RS : RandomSource}.

Lemma truthy_gt_Some v t : 0 <= t -> truthy_gt (Some v) t = Rltb t v.
Proof.
  intros Ht. simpl. destruct (Rltb t v) eqn:E; [|apply andb_false_r].
  apply Rltb_spec in E. rewrite Reqb_false by lra. reflexivity.
Qed.

(** X1. The composed risk stays below 0.0056, so with a multiplier of at most
    1.5 the product stays below 0.0084: from the grace period on, the
    probability returned is the composed risk times the multiplier and the
    cap at 0.01 never cuts it. *)
Theorem liquidation_cap_never_binds c d s p g :
  (GRACE_PERIOD_CANDLES <= c)%Z ->
  0 <= fst (rng_random g) <= 1 ->
  calculate_liquidation_probability c d s p g =
    Some (composed_risk c d s p * (0.7 + fst (rng_random g) * 0.8),
          snd (rng_random g)) /\
  composed_risk c d s p * (0.7 + fst (rng_random g) * 0.8) <= 0.0084.
Proof.
  intros Hc Hu. pose proof (composed_risk_bounds c d s p Hc) as Hr.
  assert (Hle : composed_risk c d s p * (0.7 + fst (rng_random g) * 0.8) <= 0.0084)
    by nra.
  split; [|exact Hle].
  rewrite calculate_liquidation_probability_after by exact Hc.
  rewrite Rmin_right by lra. reflexivity.
Qed.

(** X2. With candle index and hold duration fixed, the composed risk is
    non-decreasing in the position size ratio and in the PnL percent. *)
Theorem composed_risk_monotone_in_size_and_pnl c d s1 s2 p1 p2 :
  s1 <= s2 -> p1 <= p2 ->
  composed_risk c d (Some s1) (Some p1) <= composed_risk c d (Some s2) (Some p2).
Proof.
  intros Hs Hp. unfold composed_risk. destruct d as [d|]; [|lra].
  rewrite !truthy_gt_Some by lra. unfold opt_val.
  set (x := if (60 <? d)%Z then base_chance c + time_risk d else base_chance c).
  assert (Hsz : (if Rltb 0.7 s1 then x + size_risk s1 else x)
                <= (if Rltb 0.7 s2 then x + size_risk s2 else x)).
  { destruct (Rltb 0.7 s1) eqn:E1; destruct (Rltb 0.7 s2) eqn:E2.
    - apply Rltb_spec in E1. unfold size_risk.
      apply Rplus_le_compat_l, Rle_min_compat_l. lra.
    - apply Rltb_spec in E1. rewrite Rltb_true in E2 by lra. discriminate.
    - apply Rltb_spec in E2. pose proof (size_risk_bounds s2 E2). lra.
    - lra. }
  revert Hsz.
  generalize (if Rltb 0.7 s1 then x + size_risk s1 else x) as y1.
  generalize (if Rltb 0.7 s2 then x + size_risk s2 else x) as y2.
  intros y2 y1 Hy.
  destruct (Rltb 0.3 p1) eqn:E1; destruct (Rltb 0.3 p2) eqn:E2.
  - unfold greed_risk.
    apply Rplus_le_compat; [exact Hy|]. apply Rle_min_compat_l. lra.
  - apply Rltb_spec in E1. rewrite Rltb_true in E2 by lra. discriminate.
  - apply Rltb_spec in E2. pose proof (greed_risk_bounds p2 E2). lra.
  - exact Hy.
Qed.

(** X3. The base chance is 0 at the end of the grace period, grows with the
    candle index and is 0.0003 once the ramp of 75 candles is over. *)
Theorem base_chance_ramp :
  base_chance GRACE_PERIOD_CANDLES = 0 /\
  (forall c, (GRACE_PERIOD_CANDLES + RAMP_UP_PERIOD <= c)%Z ->
             base_chance c = 0.0003) /\
  (forall c1 c2, (GRACE_PERIOD_CANDLES <= c1 <= c2)%Z ->
                 base_chance c1 <= base_chance c2).
Proof.
  unfold base_chance, GRACE_PERIOD_CANDLES, RAMP_UP_PERIOD. repeat split.
  - simpl. lra.
  - intros c Hc. destruct (c - 150 <? 75)%Z eqn:E; [apply Z.ltb_lt in E; lia|].
    reflexivity.
  - intros c1 c2 [H1 H2].
    destruct (c1 - 150 <? 75)%Z eqn:E1; destruct (c2 - 150 <? 75)%Z eqn:E2.
    + assert (IZR (c1 - 150) <= IZR (c2 - 150)) by (apply IZR_le; lia). lra.
    + apply Z.ltb_lt in E1.
      assert (IZR (c1 - 150) <= 75) by (apply (IZR_le _ 75); lia). lra.
    + apply Z.ltb_lt in E2. apply Z.ltb_ge in E1. lia.
    + lra.
Qed.

(** X4. Below the grace period no position is liquidated: the check draws one
    value, which is not below the probability 0. *)
Theorem no_liquidation_in_grace_period c d s p g :
  (c < GRACE_PERIOD_CANDLES)%Z ->
  0 <= fst (rng_random g) ->
  check_liquidation c d s p g = Some (false, snd (rng_random g)).
Proof.
  intros Hc Hu. unfold check_liquidation.
  rewrite (bind_eq _ _ _ _ _ (calculate_liquidation_probability_grace c d s p g Hc)).
  unfold bind, random, ret. destruct (rng_random g) as [u g1]. simpl in *.
  rewrite Rltb_false by exact Hu. reflexivity.
Qed.


(** X6. The risk function of the quick simulator is the full one with no
    position size ratio and no PnL percent. *)
Theorem quick_probability_matches c d g :
  quick_calculate_liquidation_probability c d g =
  calculate_liquidation_probability c d None None g.
Proof.
  unfold quick_calculate_liquidation_probability,
    calculate_liquidation_probability, composed_risk, base_chance, time_risk,
    RAMP_UP_PERIOD.
  destruct (c <? GRACE_PERIOD_CANDLES)%Z; [reflexivity|].
  destruct d as [d|]; [|reflexivity]. simpl truthy_gt. cbv iota.
  destruct (d =? 0)%Z eqn:E0; simpl negb; simpl andb; [|reflexivity].
  apply Z.eqb_eq in E0. subst d. reflexivity.
Qed.

End RiskExtras.

(** * Further properties of the candle generator *)

Section GeneratorExtras.
Context {RS : RandomSource}.

Lemma generate_candle_shape w i price g c g' :
  generate_candle w i price g = Some (c, g') ->
  candle c = i /\ open c = price /\ 0.01 <= close c /\ 0.01 <= low c.
Proof.
  intros H. unfold generate_candle in H. do 10 bind_inv H.
  apply ret_Some in H as [<- _]. simpl.
  repeat split; apply Rmax_l.
Qed.

Lemma generate_candles_shape w indices : forall price g data g',
  generate_candles w indices price g = Some (data, g') ->
  map candle data = indices /\
  Forall (fun c => 0.01 <= close c /\ 0.01 <= low c) data.
Proof.
  induction indices as [|i rest IH]; intros price g data g' H; simpl in H.
  - apply ret_Some in H as [<- _]. split; constructor.
  - bind_inv H. bind_inv H. apply ret_Some in H as [<- _].
    apply generate_candle_shape in E as (Hi & _ & Hc & Hl).
    apply IH in E0 as (Hidx & Hall).
    split; [simpl; now rewrite Hi, Hidx | constructor; auto].
Qed.

Lemma generate_shape s g data g' :
  generate_realistic_price_data s g = Some (data, g') ->
  map candle data = zrange 0 ROUND_DURATION_CANDLES /\
  Forall (fun c => 0.01 <= close c /\ 0.01 <= low c) data.
Proof.
  intros H0. apply generate_returned in H0 as [_ H0]. revert H0.
  generalize (start_state s g) as g0.
  intros g0 H. unfold generate_realistic_price_data in H.
  do 8 bind_inv H. now apply generate_candles_shape in H.
Qed.

Lemma nth_error_zrange lo hi k :
  (k < Z.to_nat (hi - lo))%nat ->
  nth_error (zrange lo hi) k = Some (lo + Z.of_nat k)%Z.
Proof.
  intros Hk. unfold zrange. rewrite nth_error_map.
  rewrite nth_error_seq. destruct (Nat.ltb_spec k (Z.to_nat (hi - lo))); [|lia].
  reflexivity.
Qed.

(** X7. The candle stored at position [i] of a generated sequence carries the
    candle number [i]. *)
Theorem candle_numbers_match_positions s g data g' i c :
  generate_realistic_price_data s g = Some (data, g') ->
  (0 <= i)%Z -> py_index data i = Some c -> candle c = i.
Proof.
  intros H Hi Hc. apply generate_shape in H as (Hidx & _).
  unfold py_index in Hc.
  destruct (i <? - Z.of_nat (List.length data))%Z; [discriminate|].
  destruct (i <? 0)%Z eqn:E; [apply Z.ltb_lt in E; lia|].
  assert (Hn : nth_error (map candle data) (Z.to_nat i) = Some (candle c))
    by (rewrite nth_error_map, Hc; reflexivity).
  rewrite Hidx in Hn.
  assert (Hlt : (Z.to_nat i < List.length (zrange 0 ROUND_DURATION_CANDLES))%nat)
    by (apply nth_error_Some; congruence).
  rewrite zrange_length in Hlt.
  rewrite nth_error_zrange in Hn by exact Hlt.
  injection Hn as <-. lia.
Qed.

(** X8. Whatever the random source returns, every close and every low of a
    generated sequence is at least the floor 0.01. *)
Theorem prices_floored s g data g' :
  generate_realistic_price_data s g = Some (data, g') ->
  Forall (fun c => 0.01 <= close c /\ 0.01 <= low c) data.
Proof. intros H. now apply generate_shape in H. Qed.

Context {RL : RandomLaws RS}.

Lemma Rabs_le_bounds a b : Rabs a <= b -> - b <= a <= b.
Proof. unfold Rabs. destruct (Rcase_abs a); lra. Qed.

Lemma wick_bound m w u p :
  0 <= m <= 0.08 * p -> 0.3 <= w <= 0.7 -> 0 <= u <= 1 ->
  m * w * u <= 0.056 * p.
Proof.
  intros Hm Hw Hu.
  assert (H1 : m * w <= 0.08 * p * 0.7) by (apply Rmult_le_compat; lra).
  assert (H2 : 0 <= m * w) by (apply Rmult_le_pos; lra).
  assert (H3 : m * w * u <= m * w * 1) by (apply Rmult_le_compat_l; lra).
  lra.
Qed.

Lemma copysign1_abs x : Rabs (copysign1 x) = 1.
Proof.
  unfold copysign1, Rabs. destruct (Rltb x 0);
    match goal with |- context [Rcase_abs ?v] => destruct (Rcase_abs v) end; lra.
Qed.

Lemma generate_candle_moves w i price g c g' :
  0.01 <= price ->
  generate_candle w i price g = Some (c, g') ->
  Rabs (close c - open c) <= 0.08 * open c /\
  high c - Rmax (open c) (close c) <= 0.056 * open c /\
  Rmin (open c) (close c) - low c <= 0.056 * open c /\
  0.01 <= close c.
Proof.
  intros Hp H. unfold generate_candle in H.
  bind_inv H. bind_inv H. bind_inv H.
  bind_inv H. apply random_draw in E2.
  bind_inv H.
  bind_inv H. apply random_draw in E4.
  bind_inv H. apply random_draw in E5.
  bind_inv H. apply random_draw in E6.
  bind_inv H. apply random_draw in E7.
  bind_inv H. apply random_draw in E8.
  apply ret_Some in H as [<- _]. simpl.
  set (move := price * (0.02 + a2 * 0.06) * copysign1 _).
  assert (Hm : Rabs move <= 0.08 * price).
  { unfold move. rewrite Rabs_mult, copysign1_abs, Rabs_right by nra. nra. }
  assert (Hm0 : 0 <= Rabs move) by apply Rabs_pos.
  set (x := price + move * (0.5 + a5 * 0.5)).
  assert (Hx : Rabs (x - price) <= 0.08 * price).
  { unfold x. replace (price + move * (0.5 + a5 * 0.5) - price)
      with (move * (0.5 + a5 * 0.5)) by ring.
    rewrite Rabs_mult, (Rabs_right (0.5 + a5 * 0.5)) by lra. nra. }
  repeat split.
  - apply Rabs_le. apply Rabs_le_bounds in Hx.
    unfold Rmax. destruct (Rle_dec 0.01 x); lra.
  - assert (Rabs move * (0.3 + a6 * 0.4) * a7 <= 0.056 * price)
      by (apply wick_bound; lra).
    lra.
  - assert (Rabs move * (0.3 + a6 * 0.4) * a8 <= 0.056 * price)
      by (apply wick_bound; lra).
    pose proof (Rmax_r 0.01 (Rmin price (Rmax 0.01 x)
                              - Rabs move * (0.3 + a6 * 0.4) * a8)).
    lra.
  - apply Rmax_l.
Qed.

Lemma generate_candles_moves w indices : forall price g data g',
  0.01 <= price ->
  generate_candles w indices price g = Some (data, g') ->
  Forall (fun c =>
    Rabs (close c - open c) <= 0.08 * open c /\
    high c - Rmax (open c) (close c) <= 0.056 * open c /\
    Rmin (open c) (close c) - low c <= 0.056 * open c) data.
Proof.
  induction indices as [|i rest IH]; intros price g data g' Hp H; simpl in H.
  - apply ret_Some in H as [<- _]. constructor.
  - bind_inv H. bind_inv H. apply ret_Some in H as [<- _].
    apply generate_candle_moves in E as (H1 & H2 & H3 & Hc); [|exact Hp].
    constructor; [auto | eapply IH; eauto].
Qed.

(** X9. In a generated sequence the close of a candle is within 8% of its
    open, and each wick reaches at most 5.6% of the open beyond the body. *)
Theorem candle_moves_bounded s g data g' :
  generate_realistic_price_data s g = Some (data, g') ->
  Forall (fun c =>
    Rabs (close c - open c) <= 0.08 * open c /\
    high c - Rmax (open c) (close c) <= 0.056 * open c /\
    Rmin (open c) (close c) - low c <= 0.056 * open c) data.
Proof.
  intros H0. apply generate_returned in H0 as [_ H0]. revert H0.
  generalize (start_state s g) as g0.
  intros g0 H. unfold generate_realistic_price_data in H.
  bind_inv H. apply ret_Some in E as [_ <-].
  bind_inv H. apply random_draw in E.
  do 6 bind_inv H.
  eapply generate_candles_moves; [|exact H]. lra.
Qed.

(** X10. The first candle of a generated sequence opens between 10 and 15. *)
Theorem first_candle_opens_in_band s g data g' :
  generate_realistic_price_data s g = Some (data, g') ->
  exists c rest, data = c :: rest /\ 10 <= open c < 15.
Proof.
  intros H. apply generate_first_open in H as (c & rest & -> & Ho).
  exists c, rest. split; [reflexivity|].
  pose proof (random_unit (start_state s g)). lra.
Qed.

End GeneratorExtras.

(** * Further properties of the strategies *)

Section StrategyExtras.
Context {RS : RandomSource}.

Lemma py_index_beyond {A} (l : list A) i :
  (len l <= i)%Z -> py_index l i = None.
Proof.
  unfold py_index, len. intros H.
  destruct (i <? - Z.of_nat (List.length l))%Z eqn:E1; [reflexivity|].
  destruct (i <? 0)%Z eqn:E2; [apply Z.ltb_lt in E2; lia|].
  apply nth_error_None. lia.
Qed.

Lemma py_index_Some_bound {A} (l : list A) i x :
  (0 <= i)%Z -> py_index l i = Some x -> (i < len l)%Z.
Proof.
  intros Hi H. destruct (Z_lt_le_dec i (len l)) as [Hlt|Hge]; [exact Hlt|].
  rewrite py_index_beyond in H by exact Hge. discriminate.
Qed.

Lemma zrange_empty lo hi : (hi <= lo)%Z -> zrange lo hi = [].
Proof. intros H. unfold zrange. replace (Z.to_nat (hi - lo)) with O by lia. reflexivity. Qed.

(** X11. [buy_and_hold] reads candle 160: with a positive balance and at most
    160 candles the call raises. *)
Theorem buy_and_hold_short_data_raises p pd g :
  0 < balance p -> (len pd <= 160)%Z ->
  buy_and_hold p pd g = None.
Proof.
  intros Hb Hlen. unfold buy_and_hold, buy_and_hold_position.
  rewrite Rleb_false by exact Hb.
  change (GRACE_PERIOD_CANDLES + 10)%Z with 160%Z.
  unfold bind at 1. unfold bind at 1. unfold close_at.
  rewrite py_index_beyond by exact Hlen. reflexivity.
Qed.

(** X12. [dip_buyer] scans the candles from 170 to [len - 31]: with at most 200
    candles there is nothing to scan, the call returns no trade, leaves the
    player as it is and draws nothing. *)
Theorem dip_buyer_short_data_no_entry p pd g :
  0 < balance p -> (len pd <= 200)%Z ->
  dip_buyer p pd g = Some ([], p, g).
Proof.
  intros Hb Hlen. unfold dip_buyer, dip_buyer_position.
  rewrite Rleb_false by exact Hb.
  rewrite zrange_empty by (unfold GRACE_PERIOD_CANDLES; lia).
  reflexivity.
Qed.

Lemma random_trader_loop_broke pd n p trades g :
  balance p <= 0 ->
  random_trader_loop n p pd trades g = Some (trades, p, g).
Proof.
  intros Hb. destruct n; simpl; [reflexivity|].
  rewrite Rleb_true by exact Hb. reflexivity.
Qed.

Lemma scalper_loop_broke pd n p trades g :
  balance p <= 0 ->
  scalper_loop n p pd trades g = Some (trades, p, g).
Proof.
  intros Hb. destruct n; simpl; [reflexivity|].
  rewrite Rleb_true by exact Hb. reflexivity.
Qed.

Lemma find_dips_incl pd lookback indices : forall g found g',
  find_dips pd lookback indices g = Some (found, g') -> incl found indices.
Proof.
  induction indices as [|i rest IH]; intros g found g' H; simpl in H.
  - apply ret_Some in H as [<- _]. apply incl_refl.
  - do 5 bind_inv H. apply ret_Some in H as [<- _].
    apply IH in E3. destruct (Rltb 0.05 a2).
    + intros x [<- | Hx]; [now left | right; now apply E3].
    + now apply incl_tl.
Qed.

Lemma hold_and_close_candles p pd r ec ep ps candles xi xc g p' t g' :
  hold_and_close p pd r ec ep ps candles xi xc g = Some (p', Exited t, g') ->
  entry_candle t = ec /\ exit_candle t = xc.
Proof.
  intros H. apply hold_and_close_inv in H as [[H _] | H]; [discriminate|].
  destruct H as (t' & cx & Ho & _ & _ & _ & _ & _ & He & Hx & _).
  injection Ho as ->. auto.
Qed.

(** X13. A normal exit loses less than the position size before the fee, and
    less than 1.002 times the position size after it. *)
Theorem normal_exit_loss_bounded f r p pd g p' t g' :
  In (f, r) position_steps -> positive_closes pd -> 0 < balance p ->
  f p pd g = Some (p', Exited t, g') ->
  - (balance p * r) < gross_pnl t /\
  - (1.002 * (balance p * r)) < net_pnl t.
Proof.
  intros Hf Hpd Hb H.
  pose proof (position_step_result f r p pd g p' _ g' Hf H) as S.
  apply step_ratio in Hf. simpl in S.
  destruct S as (_ & (ce & Hce & He) & (cx & Hcx & Hx) & Hne & Hg & Hfee & Hnet).
  unfold positive_closes in Hpd. rewrite Forall_forall in Hpd.
  apply Hpd in Hce, Hcx. rewrite He in Hce. rewrite Hx in Hcx.
  rewrite Hnet, Hg, Hfee. unfold TRADING_FEE_RATE.
  set (e := entry_price t) in *. set (x := exit_price t) in *.
  assert (Hq : 0 < x / e) by (apply Rdiv_lt_0_compat; assumption).
  replace ((x - e) * (balance p * r / e))
    with (balance p * r * (x / e) - balance p * r) by (field; lra).
  assert (0 < balance p * r * (x / e)).
  { apply Rmult_lt_0_compat; [|exact Hq]. destruct Hf as [-> | ->]; lra. }
  split; lra.
Qed.

Lemma collect_fees_from f trades :
  collect_fees f trades = f + collect_fees 0 trades.
Proof.
  unfold collect_fees. revert f.
  induction trades as [|t rest IH]; intros f; simpl; [lra|].
  rewrite (IH (f + fee t)), (IH (0 + fee t)). lra.
Qed.

Lemma collect_fees_app f a b :
  collect_fees f (a ++ b) = collect_fees f a + collect_fees 0 b.
Proof.
  unfold collect_fees at 1. rewrite fold_left_app.
  fold (collect_fees f a). apply collect_fees_from.
Qed.

Lemma step_fees f r p pd g p' o g' :
  In (f, r) position_steps ->
  f p pd g = Some (p', o, g') ->
  total_fees_paid p' = total_fees_paid p + collect_fees 0 (trades_of o).
Proof.
  intros Hf H. pose proof (position_step_result f r p pd g p' o g' Hf H) as S.
  destruct o as [|s|t]; simpl in S; unfold collect_fees; simpl.
  - subst. lra.
  - destruct S as (_ & ->). simpl. lra.
  - destruct S as (-> & _). simpl. lra.
Qed.

Lemma random_trader_loop_fees pd n : forall p trades g trades' p' g',
  random_trader_loop n p pd trades g = Some (trades', p', g') ->
  collect_fees 0 trades' - collect_fees 0 trades
  = total_fees_paid p' - total_fees_paid p.
Proof.
  induction n as [|n IH]; intros p trades g trades' p' g' H; simpl in H.
  - apply ret_Some in H as [H _]. injection H as <- <-. lra.
  - destruct (Rleb (balance p) 0).
    + apply ret_Some in H as [H _]. injection H as <- <-. lra.
    + bind_inv H. destruct a as [p1 o]. apply IH in H.
      apply (step_fees random_trader_trade POSITION_SIZE_RATIO) in E;
        [|left; reflexivity].
      rewrite collect_fees_app in H. lra.
Qed.

(** X14. For the three strategies that report their trades, the fees of the
    returned records add up to what the call added to [total_fees_paid]:
    the round collects exactly what these players paid. *)
Theorem reported_fees_equal_fees_paid name strategy p pd g trades p' g' :
  In (name, strategy)
     [ ("random"%string, random_trader); ("hodl"%string, buy_and_hold);
       ("dip_buyer"%string, dip_buyer) ] ->
  strategy p pd g = Some (trades, p', g') ->
  collect_fees 0 trades = total_fees_paid p' - total_fees_paid p.
Proof.
  simpl. intros [E | [E | [E | []]]]; injection E as _ <-; intros H.
  - unfold random_trader in H. bind_inv H.
    apply random_trader_loop_fees in H. unfold collect_fees in H at 2.
    simpl in H. lra.
  - unfold buy_and_hold in H. bind_inv H. destruct a as [p1 o].
    apply ret_Some in H as [H _]. injection H as <- <-.
    apply (step_fees buy_and_hold_position POSITION_SIZE_RATIO) in E;
      [lra | right; left; reflexivity].
  - unfold dip_buyer in H. bind_inv H. destruct a as [p1 o].
    apply ret_Some in H as [H _]. injection H as <- <-.
    apply (step_fees dip_buyer_position POSITION_SIZE_RATIO) in E;
      [lra | right; right; right; left; reflexivity].
Qed.

Context {RL : RandomLaws RS}.

(** X15. A player with no balance left is handed back unchanged, with no trade,
    by each of the four strategies, on any candle sequence. *)
Theorem broke_player_untouched name strategy p pd g :
  In (name, strategy) player_types -> balance p <= 0 ->
  exists g', strategy p pd g = Some ([], p, g').
Proof.
  unfold player_types. simpl.
  intros [E | [E | [E | [E | []]]]]; injection E as _ <-; intros Hb.
  - unfold random_trader.
    destruct (choices_total 0%Z [1; 2; 3; 4; 5]%Z [10; 30; 25; 20; 10; 5]%Z g)
      as (n & g1 & E).
    rewrite (bind_eq (choices _ _) _ _ _ _ E).
    exists g1. now apply random_trader_loop_broke.
  - exists g. unfold buy_and_hold, buy_and_hold_position.
    rewrite Rleb_true by exact Hb. reflexivity.
  - unfold scalper.
    destruct (randint_ok 5 15 g ltac:(lia)) as (n & g1 & E & _).
    rewrite (bind_eq _ _ _ _ _ E).
    exists g1. now apply scalper_loop_broke.
  - exists g. unfold dip_buyer, dip_buyer_position.
    rewrite Rleb_true by exact Hb. reflexivity.
Qed.

Lemma randint_empty a b g : (b < a)%Z -> randint a b g = None.
Proof.
  intros H. destruct (randint a b g) as [[n g']|] eqn:E; [|reflexivity].
  apply randint_range in E. lia.
Qed.

(** X16. [randint] has no value to return when the sequence is too short for
    an entry candle: with a positive balance the scalper raises on fewer
    than 170 candles, and a trade of the random trader on fewer than 200. *)
Theorem short_data_entry_raises p pd g :
  0 < balance p ->
  ((len pd < 170)%Z -> scalper p pd g = None) /\
  ((len pd < 200)%Z -> random_trader_trade p pd g = None).
Proof.
  intros Hb. split; intros Hlen.
  - unfold scalper.
    destruct (randint_ok 5 15 g ltac:(lia)) as (n & g1 & E & Hn).
    rewrite (bind_eq _ _ _ _ _ E).
    destruct (Z.to_nat n) as [|m] eqn:En; [lia|].
    cbn [scalper_loop]. rewrite Rleb_false by exact Hb.
    unfold bind at 1. unfold scalper_trade. unfold bind at 1.
    rewrite randint_empty by (unfold GRACE_PERIOD_CANDLES; lia). reflexivity.
  - unfold random_trader_trade. unfold bind at 1.
    rewrite randint_empty by (unfold GRACE_PERIOD_CANDLES; lia). reflexivity.
Qed.

Lemma step_trade_in_round f r p pd g p' t g' :
  In (f, r) position_steps ->
  f p pd g = Some (p', Exited t, g') -> trade_in_round pd t.
Proof.
  unfold position_steps, trade_in_round, GRACE_PERIOD_CANDLES. simpl.
  intros [E | [E | [E | [E | []]]]]; injection E as <- <-; intros H.
  - unfold random_trader_trade in H. bind_inv H. apply randint_range in E.
    bind_inv H. apply randint_range in E0. bind_inv H.
    apply hold_and_close_candles in H as [-> ->].
    unfold GRACE_PERIOD_CANDLES in E. lia.
  - unfold buy_and_hold_position in H.
    destruct (Rleb (balance p) 0).
    + apply ret_Some in H as [H _]. discriminate.
    + bind_inv H. apply close_at_Some in E as (_ & ce & Hce & _).
      apply py_index_Some_bound in Hce; [|unfold GRACE_PERIOD_CANDLES; lia].
      apply hold_and_close_candles in H as [-> ->].
      unfold GRACE_PERIOD_CANDLES in *. lia.
  - unfold scalper_trade in H. bind_inv H. apply randint_range in E.
    bind_inv H. apply randint_range in E0. bind_inv H.
    apply hold_and_close_candles in H as [-> ->].
    unfold GRACE_PERIOD_CANDLES in E. lia.
  - unfold dip_buyer_position in H.
    destruct (Rleb (balance p) 0).
    + apply ret_Some in H as [H _]. discriminate.
    + bind_inv H. destruct a as [|entry rest].
      * apply ret_Some in H as [H _]. discriminate.
      * apply find_dips_incl in E.
        assert (Hin : In entry (zrange (GRACE_PERIOD_CANDLES + 20) (len pd - 30)))
          by (apply E; now left).
        apply zrange_In in Hin. unfold GRACE_PERIOD_CANDLES in Hin.
        bind_inv H. bind_inv H. apply randint_range in E1.
        apply hold_and_close_candles in H as [-> ->]. lia.
Qed.

Lemma random_trader_loop_in_round pd n : forall p trades g trades' p' g',
  Forall (trade_in_round pd) trades ->
  random_trader_loop n p pd trades g = Some (trades', p', g') ->
  Forall (trade_in_round pd) trades'.
Proof.
  induction n as [|n IH]; intros p trades g trades' p' g' HP H; simpl in H.
  - apply ret_Some in H as [H _]. now injection H as <- _.
  - destruct (Rleb (balance p) 0).
    + apply ret_Some in H as [H _]. now injection H as <- _.
    + bind_inv H. destruct a as [p1 o].
      eapply IH; [|exact H]. apply Forall_app. split; [exact HP|].
      destruct o as [|s|t]; simpl; constructor; [|constructor].
      eapply (step_trade_in_round random_trader_trade); [left; reflexivity | exact E].
Qed.

(** X17. Every trade a strategy returns was entered at or after the end of the
    grace period and left no earlier than it was entered, at a candle of
    the sequence. *)
Theorem trades_lie_in_round name strategy p pd g trades p' g' :
  In (name, strategy) player_types ->
  strategy p pd g = Some (trades, p', g') ->
  Forall (trade_in_round pd) trades.
Proof.
  unfold player_types. simpl.
  intros [E | [E | [E | [E | []]]]]; injection E as _ <-; intros H.
  - unfold random_trader in H. bind_inv H.
    eapply random_trader_loop_in_round; [constructor | exact H].
  - unfold buy_and_hold in H. bind_inv H. destruct a as [p1 o].
    apply ret_Some in H as [H _]. injection H as <- _.
    destruct o as [|s|t]; simpl; constructor; [|constructor].
    eapply (step_trade_in_round buy_and_hold_position);
      [right; left; reflexivity | exact E].
  - apply scalper_reports_nothing in H as ->. constructor.
  - unfold dip_buyer in H. bind_inv H. destruct a as [p1 o].
    apply ret_Some in H as [H _]. injection H as <- _.
    destruct o as [|s|t]; simpl; constructor; [|constructor].
    eapply (step_trade_in_round dip_buyer_position);
      [right; right; right; left; reflexivity | exact E].
Qed.

End StrategyExtras.

(** * Further properties of a run *)

Section RunExtras.
Context {RS : RandomSource}.

Lemma step_keeps_type_of (q : Player) f r p pd g p' o g' :
  In (f, r) position_steps -> True ->
  type p = type q ->
  f p pd g = Some (p', o, g') -> type p' = type q.
Proof.
  intros Hf _ Ht H.
  pose proof (position_step_result f r p pd g p' o g' Hf H) as S.
  destruct o as [|s|t]; simpl in S.
  - now subst.
  - destruct S as (_ & ->). exact Ht.
  - destruct S as (-> & _). exact Ht.
Qed.

Lemma play_players_types pd players : forall fees g players' fees' g',
  play_players players pd fees g = Some (players', fees', g') ->
  map type players' = map type players.
Proof.
  induction players as [|p rest IH]; intros fees g players' fees' g' H;
    cbn [play_players] in H.
  - apply ret_Some in H as [H _]. now injection H as <- _.
  - destruct (Rleb (balance p) 0).
    + bind_inv H. destruct a as [rest' f1].
      apply ret_Some in H as [H _]. injection H as <- _.
      simpl. f_equal. eapply IH; eauto.
    + destruct (dict_get player_types (type p)) as [strategy|] eqn:Ed;
        [|unfold raise in H; cbv beta in H; discriminate].
      bind_inv H. destruct a as [trades p1].
      bind_inv H. destruct a as [rest' f1].
      apply ret_Some in H as [H _]. injection H as <- _.
      simpl. f_equal; [|eapply IH; eauto].
      apply dict_get_In in Ed.
      exact (strategy_keeps (fun _ => True) (fun q => type q = type p)
               (step_keeps_type_of p) _ _ _ _ _ _ _ _ Ed I eq_refl E).
Qed.

Lemma simulate_round_types n players g players' rd g' :
  simulate_round n players g = Some (players', rd, g') ->
  map type players' = map type players /\
  round rd = n /\ house_profit rd = fees_collected rd.
Proof.
  intros H. unfold simulate_round in H.
  bind_inv H. bind_inv H. destruct a0 as [ps fees].
  do 3 bind_inv H. apply ret_Some in H as [H _]. injection H as <- <-. simpl.
  apply play_players_types in E0. repeat split; auto.
  rewrite map_map, <- E0. apply map_ext.
  intros p. now destruct (reset_fields p) as (_ & _ & _ & _ & ->).
Qed.

Lemma simulate_rounds_records nums :
  forall players hp rds g players' hp' rds' g',
  simulate_rounds nums players hp rds g = Some (players', hp', rds', g') ->
  map type players' = map type players /\
  exists new, rds' = rds ++ new /\ hp' = hp ++ map house_profit new /\
              map round new = nums /\
              Forall (fun rd => house_profit rd = fees_collected rd) new.
Proof.
  induction nums as [|n rest IH];
    intros players hp rds g players' hp' rds' g' H; simpl in H.
  - apply ret_Some in H as [H _]. injection H as <- <- <-.
    split; [reflexivity|]. exists []. rewrite !app_nil_r. repeat split; constructor.
  - bind_inv H. destruct a as [ps rd].
    apply simulate_round_types in E as (Ht & Hn & Hf).
    apply IH in H as (Ht' & new & -> & -> & Hr & Hall).
    split; [congruence|]. exists (rd :: new).
    rewrite <- !app_assoc. simpl. repeat split; auto.
    now rewrite Hn, Hr.
Qed.

(** X18. A run neither adds, removes nor reorders players: the final list has
    [players_per_type] players of each of the four types, in the order in
    which they were created. *)
Theorem run_keeps_population n k g players hp rds g' :
  run_trading_simulation n k g = Some (players, hp, rds, g') ->
  map type players = map type (initial_players k) /\
  len players = (4 * Z.max 0 k)%Z.
Proof.
  unfold run_trading_simulation. intros H.
  apply simulate_rounds_records in H as (Ht & _).
  split; [exact Ht|].
  unfold len. rewrite <- (length_map type), Ht, length_map.
  unfold initial_players, player_types. cbn [flat_map fst].
  rewrite !length_app, !repeat_length. cbn [List.length]. lia.
Qed.

(** X19. A run returns one record and one house profit per round, in order:
    the records are numbered 0, 1, ..., [num_rounds - 1], and the profit of
    each round is the fees collected in it. *)
Theorem round_records_numbered n k g players hp rds g' :
  run_trading_simulation n k g = Some (players, hp, rds, g') ->
  map round rds = zrange 0 n /\
  hp = map house_profit rds /\
  hp = map fees_collected rds.
Proof.
  unfold run_trading_simulation. intros H.
  apply simulate_rounds_records in H as (_ & new & -> & -> & Hr & Hall).
  simpl. repeat split; auto.
  clear Hr. induction Hall as [|rd rest Hrd _ IH]; simpl; [reflexivity|].
  now rewrite Hrd, IH.
Qed.

Context {RL : RandomLaws RS}.

Lemma step_keeps_counters f r p pd g p' o g' :
  In (f, r) position_steps -> positive_closes pd ->
  0 < balance p /\ counters_ok p ->
  f p pd g = Some (p', o, g') ->
  0 < balance p' /\ counters_ok p'.
Proof.
  intros Hf Hpd [Hb (Hw & Hl & Hfee & Hi)] H.
  split; [eapply step_keeps_positive; eauto|].
  pose proof (position_step_result f r p pd g p' o g' Hf H) as S.
  apply step_ratio in Hf. unfold counters_ok.
  destruct o as [|s|t]; simpl in S.
  - subst. auto.
  - destruct S as (_ & ->). simpl. repeat split; auto; lia.
  - destruct S as (-> & _ & _ & _ & _ & Hf' & _). simpl.
    unfold TRADING_FEE_RATE in Hf'.
    assert (0 <= fee t) by (rewrite Hf'; destruct Hf as [-> | ->]; nra).
    repeat split; auto; try lra; destruct (Rltb 0 (net_pnl t)); lia.
Qed.

Lemma run_players_sound n k g players hp rds g' :
  run_trading_simulation n k g = Some (players, hp, rds, g') ->
  Forall (fun p => 0 < balance p /\ counters_ok p) players.
Proof.
  unfold run_trading_simulation. intros H.
  eapply (simulate_rounds_keeps positive_closes); [ | | | | exact H].
  - intros; eapply step_keeps_counters; eauto.
  - intros p Hp. unfold counters_ok in *.
    unfold reset_round_liquidations.
    destruct (has_round_liquidations p); simpl; exact Hp.
  - intros; eapply generate_positive_closes; eauto.
  - apply initial_players_Forall. intros name. unfold counters_ok; simpl.
    repeat split; try lia; lra.
Qed.

(** X20. After any run every player has won at most as many trades as it
    made, has non-negative counters and fees, and still records the initial
    balance 1000. *)
Theorem run_keeps_counters_consistent n k g players hp rds g' :
  run_trading_simulation n k g = Some (players, hp, rds, g') ->
  Forall (fun p =>
    (0 <= winning_trades p <= total_trades p)%Z /\
    (0 <= liquidations_suffered p)%Z /\
    0 <= total_fees_paid p /\
    initial_balance p = 1000) players.
Proof.
  intros H. apply run_players_sound in H.
  eapply Forall_impl; [|exact H]. intros p [_ Hp]. exact Hp.
Qed.

End RunExtras.

(** * Properties of the analysis *)

Lemma py_sum_R_from l : forall a, fold_left Rplus l a = a + sum_R l.
Proof.
  unfold sum_R. induction l as [|x l IH]; intros a; simpl; [lra|].
  rewrite IH. lra.
Qed.

Lemma py_sum_R_eq l : py_sum_R l = sum_R l.
Proof. unfold py_sum_R. rewrite py_sum_R_from. lra. Qed.

Lemma py_sum_Z_from l : forall a, fold_left Z.add l a = (a + sum_Z l)%Z.
Proof.
  unfold sum_Z. induction l as [|x l IH]; intros a; simpl; [lia|].
  rewrite IH. lia.
Qed.

Lemma py_sum_Z_eq l : py_sum_Z l = sum_Z l.
Proof. unfold py_sum_Z. rewrite py_sum_Z_from. lia. Qed.

Lemma fold_left_Rmin_le l : forall x y,
  In y (x :: l) -> fold_left Rmin l x <= y.
Proof.
  induction l as [|z l IH]; intros x y Hy; simpl.
  - destruct Hy as [<- | []]. lra.
  - destruct Hy as [<- | [<- | Hy]].
    + eapply Rle_trans; [apply IH; now left | apply Rmin_l].
    + eapply Rle_trans; [apply IH; now left | apply Rmin_r].
    + apply IH. now right.
Qed.

Lemma fold_left_Rmax_ge_all l : forall x y,
  In y (x :: l) -> y <= fold_left Rmax l x.
Proof.
  induction l as [|z l IH]; intros x y Hy; simpl.
  - destruct Hy as [<- | []]. lra.
  - destruct Hy as [<- | [<- | Hy]].
    + eapply Rle_trans; [apply Rmax_l | apply IH; now left].
    + eapply Rle_trans; [apply Rmax_r | apply IH; now left].
    + apply IH. now right.
Qed.

Lemma sum_R_bounds a b l :
  (forall y, In y l -> a <= y <= b) ->
  INR (List.length l) * a <= sum_R l <= INR (List.length l) * b.
Proof.
  unfold sum_R. induction l as [|x l IH]; intros H.
  - simpl. lra.
  - change (List.length (x :: l)) with (S (List.length l)). rewrite S_INR.
    simpl fold_right.
    destruct IH as [IH1 IH2]; [intros; apply H; now right|].
    pose proof (H x (or_introl eq_refl)). lra.
Qed.

Lemma mean_R_bounds a b l :
  l <> [] -> (forall y, In y l -> a <= y <= b) -> a <= mean_R l <= b.
Proof.
  intros Hne H. unfold mean_R. rewrite py_sum_R_eq.
  pose proof (sum_R_bounds a b l H) as [H1 H2].
  assert (Hn : 0 < INR (List.length l)).
  { apply lt_0_INR. destruct l; [contradiction | simpl; lia]. }
  split.
  - apply Rmult_le_reg_r with (INR (List.length l)); [exact Hn|].
    unfold Rdiv. rewrite Rmult_assoc, Rinv_l by lra. lra.
  - apply Rmult_le_reg_r with (INR (List.length l)); [exact Hn|].
    unfold Rdiv. rewrite Rmult_assoc, Rinv_l by lra. lra.
Qed.

Lemma insert_sorted_In x l y : In y (insert_sorted x l) <-> y = x \/ In y l.
Proof.
  induction l as [|z l IH]; simpl.
  - intuition.
  - destruct (Rleb x z); simpl; [intuition|]. rewrite IH. intuition.
Qed.

Lemma insert_sorted_length x l :
  List.length (insert_sorted x l) = S (List.length l).
Proof.
  induction l as [|z l IH]; simpl; [reflexivity|].
  destruct (Rleb x z); simpl; [reflexivity | now rewrite IH].
Qed.

Lemma sort_R_In l y : In y (sort_R l) <-> In y l.
Proof.
  induction l as [|x l IH]; simpl; [tauto|].
  rewrite insert_sorted_In, IH. intuition.
Qed.

Lemma sort_R_length l : List.length (sort_R l) = List.length l.
Proof.
  induction l as [|x l IH]; simpl; [reflexivity|].
  now rewrite insert_sorted_length, IH.
Qed.

Lemma median_R_bounds a b l :
  l <> [] -> (forall y, In y l -> a <= y <= b) -> a <= median_R l <= b.
Proof.
  intros Hne H. unfold median_R.
  assert (Hn : (0 < List.length l)%nat) by (destruct l; [contradiction | simpl; lia]).
  assert (Hk : forall k, (k < List.length l)%nat -> a <= nth k (sort_R l) 0 <= b).
  { intros k Hlt. apply H, sort_R_In, nth_In. now rewrite sort_R_length. }
  assert (Hhalf : (List.length l / 2 < List.length l)%nat)
    by (apply Nat.div_lt; lia).
  destruct (Nat.even (List.length l)).
  - pose proof (Hk (List.length l / 2 - 1)%nat ltac:(lia)).
    pose proof (Hk (List.length l / 2)%nat Hhalf). lra.
  - apply Hk, Hhalf.
Qed.

Lemma analyze_type_Some players ty st tp :
  analyze_type players ty = Some st ->
  tp = filter (fun p => String.eqb (type p) ty) players ->
  tp <> [] /\
  np_min (map balance tp) = Some (min_balance st) /\
  np_max (map balance tp) = Some (max_balance st) /\
  avg_balance st = mean_R (map balance tp) /\
  median_balance st = median_R (map balance tp) /\
  win_rate st =
    (if (0 <? py_sum_Z (map total_trades tp))%Z
     then IZR (py_sum_Z (map winning_trades tp))
          / IZR (py_sum_Z (map total_trades tp)) * 100
     else 0) /\
  stat_total_trades st = py_sum_Z (map total_trades tp).
Proof.
  unfold analyze_type. intros H Htp. rewrite <- Htp in H.
  destruct (np_min (map balance tp)) as [mn|] eqn:Emin; [|discriminate].
  destruct (np_max (map balance tp)) as [mx|] eqn:Emax; [|discriminate].
  injection H as <-. simpl. repeat split; auto.
  intros E. rewrite E in Emin. discriminate.
Qed.

(** X21. The statistics of a player type are ordered: the minimum balance is
    at most the average and the median, which are at most the maximum. *)
Theorem analysis_statistics_ordered players ty st :
  analyze_type players ty = Some st ->
  min_balance st <= avg_balance st <= max_balance st /\
  min_balance st <= median_balance st <= max_balance st.
Proof.
  intros H.
  apply (analyze_type_Some _ _ _ _) with (2 := eq_refl)
    in H as (Hne & Hmin & Hmax & -> & -> & _ & _).
  set (bs := map balance _) in *.
  assert (Hb : bs <> []).
  { intros E. apply Hne. now apply map_eq_nil in E. }
  assert (Hall : forall y, In y bs -> min_balance st <= y <= max_balance st).
  { destruct bs as [|x rest]; [contradiction|].
    simpl in Hmin, Hmax. injection Hmin as <-. injection Hmax as <-.
    intros y Hy. split; [now apply fold_left_Rmin_le | now apply fold_left_Rmax_ge_all]. }
  split; [now apply mean_R_bounds | now apply median_R_bounds].
Qed.

Lemma sum_Z_wins_le (l : list Player) :
  Forall (fun p => (0 <= winning_trades p <= total_trades p)%Z) l ->
  (0 <= sum_Z (map winning_trades l) <= sum_Z (map total_trades l))%Z.
Proof.
  unfold sum_Z. induction 1 as [|p rest Hp _ IH]; simpl; lia.
Qed.

Lemma win_rate_bounds players ty st :
  Forall (fun p => (0 <= winning_trades p <= total_trades p)%Z) players ->
  analyze_type players ty = Some st ->
  0 <= win_rate st <= 100 /\
  ((stat_total_trades st <= 0)%Z -> win_rate st = 0).
Proof.
  intros HF H.
  apply (analyze_type_Some _ _ _ _) with (2 := eq_refl)
    in H as (_ & _ & _ & _ & _ & -> & ->).
  set (tp := filter _ players).
  assert (HFt : Forall (fun p => (0 <= winning_trades p <= total_trades p)%Z) tp).
  { apply Forall_forall. intros p Hp. apply filter_In in Hp as [Hp _].
    rewrite Forall_forall in HF. now apply HF. }
  apply sum_Z_wins_le in HFt. rewrite !py_sum_Z_eq.
  destruct (0 <? sum_Z (map total_trades tp))%Z eqn:E.
  2:{ split; [lra | reflexivity]. }
  apply Z.ltb_lt in E. split; [|intros Hle; lia].
  assert (Ht : 0 < IZR (sum_Z (map total_trades tp))) by (apply (IZR_lt 0); lia).
  assert (Hw0 : 0 <= IZR (sum_Z (map winning_trades tp))) by (apply (IZR_le 0); lia).
  assert (Hw1 : IZR (sum_Z (map winning_trades tp)) <= IZR (sum_Z (map total_trades tp)))
    by (apply IZR_le; lia).
  split.
  - apply Rmult_le_pos; [|lra]. apply Rmult_le_pos; [exact Hw0|].
    left. now apply Rinv_0_lt_compat.
  - assert (IZR (sum_Z (map winning_trades tp)) / IZR (sum_Z (map total_trades tp)) <= 1).
    { apply Rmult_le_reg_r with (IZR (sum_Z (map total_trades tp))); [exact Ht|].
      unfold Rdiv. rewrite Rmult_assoc, Rinv_l by lra. lra. }
    lra.
Qed.

(** X22. When no player has won more trades than it made, the win rate of a
    type is a percentage: between 0 and 100, and 0 when the type made no
    trade. *)
Theorem analysis_win_rate_is_percentage players ty st :
  Forall (fun p => (0 <= winning_trades p <= total_trades p)%Z) players ->
  analyze_type players ty = Some st ->
  0 <= win_rate st <= 100 /\
  ((stat_total_trades st <= 0)%Z -> win_rate st = 0).
Proof. exact (win_rate_bounds players ty st). Qed.

Lemma analyze_type_None players ty :
  analyze_type players ty = None <-> Forall (fun p => type p <> ty) players.
Proof.
  unfold analyze_type.
  set (tp := filter (fun p => String.eqb (type p) ty) players).
  assert (Htp : tp = [] <-> Forall (fun p => type p <> ty) players).
  { unfold tp. clear tp. induction players as [|p rest IH]; simpl.
    - split; [constructor | reflexivity].
    - destruct (String.eqb (type p) ty) eqn:E.
      + apply String.eqb_eq in E. split; [discriminate|].
        intros H. inversion H; subst. congruence.
      + apply String.eqb_neq in E. rewrite IH. split.
        * intros H. now constructor.
        * intros H. now inversion H. }
  rewrite <- Htp. destruct tp as [|p rest]; simpl.
  - split; reflexivity.
  - split; discriminate.
Qed.

Lemma analyze_types_Some players tys stats :
  analyze_types players tys = Some stats ->
  map fst stats = tys /\
  Forall (fun kv => analyze_type players (fst kv) = Some (snd kv)) stats.
Proof.
  revert stats. induction tys as [|ty rest IH]; intros stats H; simpl in H.
  - injection H as <-. split; constructor.
  - destruct (analyze_type players ty) as [st|] eqn:E; [|discriminate].
    destruct (analyze_types players rest) as [sts|]; [|discriminate].
    injection H as <-. destruct (IH sts eq_refl) as [H1 H2].
    split; [simpl; now rewrite H1 | constructor; auto].
Qed.

Lemma analyze_types_None players tys :
  analyze_types players tys = None <->
  exists ty, In ty tys /\ analyze_type players ty = None.
Proof.
  induction tys as [|ty rest IH]; simpl.
  - split; [discriminate | intros (ty & [] & _)].
  - destruct (analyze_type players ty) as [st|] eqn:E.
    + destruct (analyze_types players rest) as [sts|].
      * split; [discriminate|].
        intros (ty' & [<- | Hin] & Hn); [congruence|].
        assert (Some sts = None) by (apply IH; eauto). discriminate.
      * split; [|reflexivity]. intros _.
        destruct (proj1 IH eq_refl) as (ty' & Hin & Hn). eauto.
    + split; [|reflexivity]. intros _. exists ty. auto.
Qed.

Lemma analyze_results_None_iff players hp rds :
  analyze_results players hp rds = None <->
  exists ty,
    In ty ["random"%string; "hodl"%string; "scalper"%string; "dip_buyer"%string] /\
    Forall (fun p => type p <> ty) players.
Proof.
  unfold analyze_results.
  destruct (analyze_types players _) as [stats|] eqn:E.
  - assert (Hne : players <> []).
    { apply analyze_types_Some in E as (Hk & Hall).
      destruct stats as [|[ty st] rest]; [discriminate|].
      inversion Hall as [|? ? H _]; subst. simpl in H.
      intros ->. unfold analyze_type in H. simpl in H. discriminate. }
    assert (Hs : INR (List.length players) * 1000 <> 0).
    { assert (0 < INR (List.length players)).
      { apply lt_0_INR. destruct players; [contradiction | simpl; lia]. }
      lra. }
    rewrite Reqb_false by exact Hs. split; [discriminate|].
    intros (ty & Hin & Hall). apply analyze_type_None in Hall.
    assert (analyze_types players
              ["random"%string; "hodl"%string; "scalper"%string; "dip_buyer"%string]
            = None) by (apply analyze_types_None; eauto).
    congruence.
  - split; [|reflexivity]. intros _.
    apply analyze_types_None in E as (ty & Hin & Hn).
    exists ty. split; [exact Hin | now apply analyze_type_None].
Qed.

(** X23. [analyze_results] raises exactly when one of the four player types
    has no player, as after a run with [players_per_type] at 0. *)
Theorem analysis_needs_every_type players hp rds :
  analyze_results players hp rds = None <->
  exists ty,
    In ty ["random"%string; "hodl"%string; "scalper"%string; "dip_buyer"%string] /\
    Forall (fun p => type p <> ty) players.
Proof. exact (analyze_results_None_iff players hp rds). Qed.

Lemma sum_R_positive l : l <> [] -> Forall (fun x => 0 < x) l -> 0 < sum_R l.
Proof.
  unfold sum_R. intros Hne H. induction H as [|x rest Hx Hrest IH]; [contradiction|].
  simpl. destruct rest as [|y rest']; [simpl; lra|].
  assert (0 < fold_right Rplus 0 (y :: rest')) by (apply IH; discriminate). lra.
Qed.

Section Report.
Context {RS : RandomSource} {RL : RandomLaws RS}.

(** X24. For the result of any run, the report of [analyze_results] shows a
    total house profit equal to the total fees collected, 0 liquidation
    events, a house edge below 100% and win rates between 0 and 100. *)
Theorem report_of_a_run n k g players hp rds g' stats rep :
  run_trading_simulation n k g = Some (players, hp, rds, g') ->
  analyze_results players hp rds = Some (stats, rep) ->
  total_house_profit rep = report_total_fees rep /\
  total_liquidation_events rep = 0%Z /\
  house_edge rep < 100 /\
  Forall (fun kv => 0 <= win_rate (snd kv) <= 100) stats.
Proof.
  intros Hrun H.
  pose proof (run_players_sound _ _ _ _ _ _ _ Hrun) as Hs.
  pose proof (recorded_liquidations_zero _ _ _ _ _ _ _ Hrun) as Hz.
  unfold run_trading_simulation in Hrun.
  apply simulate_rounds_records in Hrun as (_ & new & Hr & Hh & _ & Hall).
  simpl in Hr, Hh. subst rds hp.
  unfold analyze_results in H.
  destruct (analyze_types players _) as [sts|] eqn:E; [|discriminate].
  destruct (Reqb (INR (List.length players) * 1000) 0) eqn:Es; [discriminate|].
  injection H as <- <-. simpl.
  assert (Hne : players <> []).
  { intros ->. simpl in Es. rewrite (proj2 (Reqb_spec (0 * 1000) 0)) in Es by lra.
    discriminate. }
  repeat split.
  - f_equal. clear Hz. induction Hall as [|rd rest Hrd _ IH]; simpl; [reflexivity|].
    now rewrite Hrd, IH.
  - rewrite py_sum_Z_eq. unfold sum_Z.
    induction Hz as [|rd rest Hrd _ IH]; simpl; [reflexivity|].
    inversion Hall; subst. rewrite Hrd, IH by assumption. reflexivity.
  - rewrite py_sum_R_eq.
    assert (Hpos : 0 < sum_R (map balance players)).
    { apply sum_R_positive.
      - intros E0. apply Hne. now apply map_eq_nil in E0.
      - apply Forall_map. eapply Forall_impl; [|exact Hs]. intros p [Hp _]. exact Hp. }
    assert (Hst : 0 < INR (List.length players) * 1000).
    { assert (0 < INR (List.length players)).
      { apply lt_0_INR. destruct players; [contradiction | simpl; lia]. }
      lra. }
    set (st := INR (List.length players) * 1000) in *.
    set (en := sum_R (map balance players)) in *.
    assert ((st - en) / st < 1).
    { apply Rmult_lt_reg_r with st; [exact Hst|].
      unfold Rdiv. rewrite Rmult_assoc, Rinv_l by lra. lra. }
    lra.
  - apply analyze_types_Some in E as (_ & Hst).
    eapply Forall_impl; [|exact Hst]. intros [ty st] Hty. simpl in *.
    refine (proj1 (win_rate_bounds _ _ _ _ Hty)).
    eapply Forall_impl; [|exact Hs]. intros p (_ & Hw & _). exact Hw.
Qed.

End Report.

(** * The further properties at concrete inputs *)

Lemma zero_laws : RandomLaws (fixed_source 0).
Proof. apply fixed_laws. lra. Qed.

Lemma liquidation_cap_never_binds_witness :
  calculate_liquidation_probability (RS := fixed_source (1 / 2)) 200
    (Some 70%Z) (Some 0.2) (Some 0.4) tt =
    Some (composed_risk 200 (Some 70%Z) (Some 0.2) (Some 0.4)
            * (0.7 + 1 / 2 * 0.8), tt) /\
  composed_risk 200 (Some 70%Z) (Some 0.2) (Some 0.4) * (0.7 + 1 / 2 * 0.8)
    <= 0.0084.
Proof.
  apply (liquidation_cap_never_binds (RS := fixed_source (1 / 2))
           200 (Some 70%Z) (Some 0.2) (Some 0.4) tt).
  - unfold GRACE_PERIOD_CANDLES. lia.
  - simpl. lra.
Defined.

Lemma composed_risk_monotone_in_size_and_pnl_witness :
  composed_risk 200 (Some 70%Z) (Some 0.2) (Some 0.1)
  <= composed_risk 200 (Some 70%Z) (Some 0.9) (Some 0.5).
Proof. apply composed_risk_monotone_in_size_and_pnl; lra. Defined.

Lemma base_chance_ramp_witness :
  base_chance 300 = 0.0003 /\ base_chance 160 <= base_chance 200.
Proof.
  split.
  - apply (proj1 (proj2 base_chance_ramp)).
    unfold GRACE_PERIOD_CANDLES, RAMP_UP_PERIOD. lia.
  - apply (proj2 (proj2 base_chance_ramp)).
    unfold GRACE_PERIOD_CANDLES. lia.
Defined.

Lemma no_liquidation_in_grace_period_witness :
  check_liquidation (RS := fixed_source 0) 100 (Some 20%Z) (Some 0.2) (Some 0.4) tt
  = Some (false, tt).
Proof.
  apply (no_liquidation_in_grace_period (RS := fixed_source 0)
           100 (Some 20%Z) (Some 0.2) (Some 0.4) tt).
  - unfold GRACE_PERIOD_CANDLES. lia.
  - simpl. lra.
Defined.


Lemma candle_numbers_match_positions_witness :
  exists data g' c,
    generate_realistic_price_data (RS := fixed_source 0) (Some 7%Z) tt
      = Some (data, g') /\
    py_index data 3 = Some c /\ candle c = 3%Z.
Proof.
  destruct (generate_total (RS := fixed_source 0) (RL := zero_laws)
              (Some 7%Z) tt eq_refl) as (data & g' & E).
  pose proof (generate_well_formed (RS := fixed_source 0) (RL := zero_laws) _ _ _ _ E) as Hwf.
  destruct (wf_index data 3 Hwf ltac:(unfold ROUND_DURATION_CANDLES; lia))
    as (c & Hc & _).
  exists data, g', c. split; [exact E|]. split; [exact Hc|].
  apply (candle_numbers_match_positions (RS := fixed_source 0) _ _ _ _ 3 c E);
    [lia | exact Hc].
Defined.

Lemma prices_floored_witness :
  exists data g',
    generate_realistic_price_data (RS := fixed_source 0) (Some 7%Z) tt
      = Some (data, g') /\
    Forall (fun c => 0.01 <= close c /\ 0.01 <= low c) data.
Proof.
  destruct (generate_total (RS := fixed_source 0) (RL := zero_laws)
              (Some 7%Z) tt eq_refl) as (data & g' & E).
  exists data, g'. split; [exact E|].
  exact (prices_floored (RS := fixed_source 0) _ _ _ _ E).
Defined.

Lemma candle_moves_bounded_witness :
  exists data g',
    generate_realistic_price_data (RS := fixed_source 0) (Some 7%Z) tt
      = Some (data, g') /\
    Forall (fun c =>
      Rabs (close c - open c) <= 0.08 * open c /\
      high c - Rmax (open c) (close c) <= 0.056 * open c /\
      Rmin (open c) (close c) - low c <= 0.056 * open c) data.
Proof.
  destruct (generate_total (RS := fixed_source 0) (RL := zero_laws)
              (Some 7%Z) tt eq_refl) as (data & g' & E).
  exists data, g'. split; [exact E|].
  exact (candle_moves_bounded (RS := fixed_source 0)
           (RL := zero_laws) _ _ _ _ E).
Defined.

Lemma first_candle_opens_in_band_witness :
  exists data g' c rest,
    generate_realistic_price_data (RS := fixed_source 0) (Some 7%Z) tt
      = Some (data, g') /\
    data = c :: rest /\ 10 <= open c < 15.
Proof.
  destruct (generate_total (RS := fixed_source 0) (RL := zero_laws)
              (Some 7%Z) tt eq_refl) as (data & g' & E).
  destruct (first_candle_opens_in_band (RS := fixed_source 0)
              (RL := zero_laws) _ _ _ _ E) as (c & rest & Hd & Ho).
  exists data, g', c, rest. auto.
Defined.

Lemma buy_and_hold_short_data_raises_witness :
  buy_and_hold (RS := fixed_source 0) (new_player "hodl" 1000) [] tt = None.
Proof.
  apply (buy_and_hold_short_data_raises (RS := fixed_source 0)).
  - simpl. lra.
  - unfold len. simpl. lia.
Defined.

Lemma dip_buyer_short_data_no_entry_witness :
  dip_buyer (RS := fixed_source 0) (new_player "dip_buyer" 1000) [] tt
  = Some ([], new_player "dip_buyer" 1000, tt).
Proof.
  apply (dip_buyer_short_data_no_entry (RS := fixed_source 0)).
  - simpl. lra.
  - unfold len. simpl. lia.
Defined.

Lemma normal_exit_loss_bounded_witness :
  exists t p',
    scalper_trade (RS := fixed_source (1 / 2)) (new_player "scalper" 1000)
      flat_prices tt = Some (p', Exited t, tt) /\
    - (1000 * (POSITION_SIZE_RATIO * 0.5)) < gross_pnl t /\
    - (1.002 * (1000 * (POSITION_SIZE_RATIO * 0.5))) < net_pnl t.
Proof.
  destruct (scalper_trade_half (new_player "scalper" 1000) flat_prices
              flat_prices_well_formed ltac:(simpl; lra)) as (t & E).
  exists t, (credit (new_player "scalper" 1000) t). split; [exact E|].
  eapply (normal_exit_loss_bounded (RS := fixed_source (1 / 2))
            scalper_trade (POSITION_SIZE_RATIO * 0.5)
            (new_player "scalper" 1000) flat_prices tt);
    [simpl; tauto | | simpl; lra | exact E].
  apply well_formed_positive, flat_prices_well_formed.
Defined.

Lemma buy_and_hold_half_flat :
  exists t,
    buy_and_hold (RS := fixed_source (1 / 2)) (new_player "hodl" 1000)
      flat_prices tt
    = Some ([t], credit (new_player "hodl" 1000) t, tt) /\
    fee t = 1000 * POSITION_SIZE_RATIO * TRADING_FEE_RATE /\
    entry_candle t = 160%Z /\ exit_candle t = 469%Z.
Proof.
  pose proof flat_prices_well_formed as Hwf. pose proof Hwf as [Hlen _].
  destruct (wf_index flat_prices 160 Hwf) as (ce & Hce & Hok);
    [unfold ROUND_DURATION_CANDLES; lia|].
  destruct (wf_last flat_prices Hwf) as (cx & Hcx & _).
  assert (Hh : hold_position (RS := fixed_source (1 / 2))
                 (new_player "hodl" 1000) flat_prices POSITION_SIZE_RATIO 160
                 (close ce) (1000 * POSITION_SIZE_RATIO)
                 (zrange 160 (len flat_prices)) tt = Some (false, tt)).
  { apply hold_position_half; [|now apply candle_ok_close | simpl; lra].
    intros c Hc. apply zrange_In in Hc. lia. }
  set (q := 1000 * POSITION_SIZE_RATIO / close ce).
  set (t := {| entry_candle := 160; exit_candle := len flat_prices - 1;
               entry_price := close ce; exit_price := close cx;
               gross_pnl := (close cx - close ce) * q;
               net_pnl := (close cx - close ce) * q
                          - 1000 * POSITION_SIZE_RATIO * TRADING_FEE_RATE;
               fee := 1000 * POSITION_SIZE_RATIO * TRADING_FEE_RATE |}).
  assert (Hp : buy_and_hold_position (RS := fixed_source (1 / 2))
                 (new_player "hodl" 1000) flat_prices tt
               = Some (credit (new_player "hodl" 1000) t, Exited t, tt)).
  { unfold buy_and_hold_position.
    rewrite Rleb_false by (simpl; lra).
    change (GRACE_PERIOD_CANDLES + 10)%Z with 160%Z.
    change (balance (new_player "hodl" 1000)) with 1000.
    rewrite (bind_eq _ _ _ _ _
               (close_at_eq (RS := fixed_source (1 / 2)) flat_prices 160 ce tt Hce)).
    unfold hold_and_close.
    rewrite (bind_eq _ _ _ _ _ Hh).
    rewrite (bind_eq _ _ _ _ _
               (close_at_eq (RS := fixed_source (1 / 2)) flat_prices (-1) cx tt Hcx)).
    rewrite (bind_eq _ _ _ _ _
               (pdiv_eq (RS := fixed_source (1 / 2)) _ _ tt (candle_ok_close ce Hok))).
    reflexivity. }
  exists t. split; [|split; [|split]].
  - unfold buy_and_hold. rewrite (bind_eq _ _ _ _ _ Hp). reflexivity.
  - reflexivity.
  - reflexivity.
  - unfold t. cbn [exit_candle]. rewrite Hlen. reflexivity.
Qed.

(** Buy-and-hold on the flat path and a stream of halves: one normal exit,
    one record, with fee 1000 * 0.2 * 0.002. *)
Lemma reported_fees_equal_fees_paid_witness :
  exists t p',
    buy_and_hold (RS := fixed_source (1 / 2)) (new_player "hodl" 1000)
      flat_prices tt = Some ([t], p', tt) /\
    fee t = 1000 * POSITION_SIZE_RATIO * TRADING_FEE_RATE /\
    collect_fees 0 [t]
    = total_fees_paid p' - total_fees_paid (new_player "hodl" 1000).
Proof.
  destruct buy_and_hold_half_flat as (t & E & Hf & _).
  exists t, (credit (new_player "hodl" 1000) t).
  split; [exact E|]. split; [exact Hf|].
  eapply (reported_fees_equal_fees_paid (RS := fixed_source (1 / 2))
            "hodl"%string buy_and_hold (new_player "hodl" 1000) flat_prices tt);
    [simpl; tauto | exact E].
Defined.

Lemma broke_player_untouched_witness :
  exists g',
    scalper (RS := fixed_source 0) (new_player "scalper" 0) flat_prices tt
    = Some ([], new_player "scalper" 0, g').
Proof.
  apply (broke_player_untouched (RS := fixed_source 0)
           (RL := zero_laws) "scalper"%string scalper).
  - simpl. tauto.
  - simpl. lra.
Defined.

Lemma short_data_entry_raises_witness :
  scalper (RS := fixed_source 0) (new_player "scalper" 1000) [] tt = None.
Proof.
  apply (proj1 (short_data_entry_raises (RS := fixed_source 0)
                  (RL := zero_laws)
                  (new_player "scalper" 1000) [] tt ltac:(simpl; lra))).
  unfold len. simpl. lia.
Defined.

(** The same run: the record returned is entered at candle 160 and left
    at candle 469. *)
Lemma trades_lie_in_round_witness :
  exists t p',
    buy_and_hold (RS := fixed_source (1 / 2)) (new_player "hodl" 1000)
      flat_prices tt = Some ([t], p', tt) /\
    entry_candle t = 160%Z /\ exit_candle t = 469%Z /\
    Forall (trade_in_round flat_prices) [t].
Proof.
  destruct buy_and_hold_half_flat as (t & E & _ & He & Hx).
  exists t, (credit (new_player "hodl" 1000) t).
  split; [exact E|]. split; [exact He|]. split; [exact Hx|].
  eapply (trades_lie_in_round (RS := fixed_source (1 / 2))
            (RL := fixed_laws (1 / 2) ltac:(lra))
            "hodl"%string buy_and_hold (new_player "hodl" 1000) flat_prices tt);
    [simpl; tauto | exact E].
Defined.

Lemma run_keeps_population_witness :
  exists players hp rds,
    run_trading_simulation (RS := fixed_source 0) 1 1 tt
      = Some (players, hp, rds, tt) /\
    map type players
      = ["random"%string; "hodl"%string; "scalper"%string; "dip_buyer"%string] /\
    len players = 4%Z.
Proof.
  destruct zero_round as (p1 & p3 & p4 & hp & rd & E).
  eexists _, _, _. split; [exact E|].
  exact (run_keeps_population (RS := fixed_source 0) _ _ _ _ _ _ _ E).
Defined.

Lemma round_records_numbered_witness :
  exists players hp rds,
    run_trading_simulation (RS := fixed_source 0) 1 1 tt
      = Some (players, hp, rds, tt) /\
    map round rds = [0%Z] /\ hp = map house_profit rds /\
    hp = map fees_collected rds.
Proof.
  destruct zero_round as (p1 & p3 & p4 & hp & rd & E).
  eexists _, _, _. split; [exact E|].
  exact (round_records_numbered (RS := fixed_source 0) _ _ _ _ _ _ _ E).
Defined.

Lemma run_keeps_counters_consistent_witness :
  exists players hp rds,
    run_trading_simulation (RS := fixed_source 0) 1 1 tt
      = Some (players, hp, rds, tt) /\
    Forall (fun p =>
      (0 <= winning_trades p <= total_trades p)%Z /\
      (0 <= liquidations_suffered p)%Z /\
      0 <= total_fees_paid p /\
      initial_balance p = 1000) players.
Proof.
  destruct zero_round as (p1 & p3 & p4 & hp & rd & E).
  eexists _, _, _. split; [exact E|].
  exact (run_keeps_counters_consistent (RS := fixed_source 0)
           (RL := zero_laws) _ _ _ _ _ _ _ E).
Defined.

Lemma sample_hodl_stats :
  analyze_type sample_players "hodl" =
  Some {| avg_balance := mean_R [1050; 800; 1020];
          median_balance := median_R [1050; 800; 1020];
          min_balance := Rmin (Rmin 1050 800) 1020;
          max_balance := Rmax (Rmax 1050 800) 1020;
          stat_total_trades := 3;
          win_rate := IZR 2 / IZR 3 * 100;
          stat_total_fees_paid := py_sum_R [0.4; 0; 0.8];
          liquidation_rate := IZR 1 / INR 3 * 100;
          avg_roi := (mean_R [1050; 800; 1020] - 1000) / 1000 * 100 |}.
Proof. reflexivity. Qed.

(** Three buy-and-hold players with balances 1050, 800 and 1020: the
    minimum is 800, the maximum 1050, the average and the median lie in
    between. *)
Lemma analysis_statistics_ordered_witness :
  exists st,
    analyze_type sample_players "hodl" = Some st /\
    min_balance st = 800 /\ max_balance st = 1050 /\
    min_balance st <= avg_balance st <= max_balance st /\
    min_balance st <= median_balance st <= max_balance st.
Proof.
  eexists. split; [exact sample_hodl_stats|].
  split; [|split].
  - simpl. unfold Rmin.
    destruct (Rle_dec 1050 800); [lra|]. destruct (Rle_dec 800 1020); lra.
  - simpl. unfold Rmax.
    destruct (Rle_dec 1050 800); [lra|]. destruct (Rle_dec 1050 1020); lra.
  - exact (analysis_statistics_ordered _ _ _ sample_hodl_stats).
Defined.

(** The same players made 3 trades and won 2: the win rate is 2/3 of 100. *)
Lemma analysis_win_rate_is_percentage_witness :
  exists st,
    analyze_type sample_players "hodl" = Some st /\
    stat_total_trades st = 3%Z /\
    win_rate st = 2 / 3 * 100 /\
    0 <= win_rate st <= 100 /\
    ((stat_total_trades st <= 0)%Z -> win_rate st = 0).
Proof.
  eexists. split; [exact sample_hodl_stats|].
  split; [reflexivity|]. split; [reflexivity|].
  apply (analysis_win_rate_is_percentage sample_players "hodl" _);
    [|exact sample_hodl_stats].
  unfold sample_players.
  repeat (constructor; [simpl; lia|]). constructor.
Defined.

Lemma analysis_needs_every_type_witness :
  analyze_results [new_player "hodl" 1000] [] [] = None.
Proof.
  apply (proj2 (analysis_needs_every_type [new_player "hodl" 1000] [] [])).
  exists "random"%string. split; [simpl; tauto|].
  constructor; [simpl; discriminate | constructor].
Defined.

Lemma zero_round_report :
  exists players hp rds stats rep,
    run_trading_simulation (RS := fixed_source 0) 1 1 tt
      = Some (players, hp, rds, tt) /\
    analyze_results players hp rds = Some (stats, rep).
Proof.
  destruct zero_round as (p1 & p3 & p4 & hp & rd & E).
  eexists _, hp, [rd].
  destruct (analyze_results _ hp [rd]) as [[stats rep]|] eqn:Ea.
  - exists stats, rep. split; [exact E | reflexivity].
  - exfalso. apply analyze_results_None_iff in Ea as (ty & Hin & Hall).
    pose proof E as E'. unfold run_trading_simulation in E'.
    apply (simulate_rounds_records (RS := fixed_source 0)) in E' as (Ht & _).
    rewrite initial_players_one in Ht. simpl in Ht.
    injection Ht as H1 H3 H4.
    inversion Hall as [|? ? N1 Hall1]; subst.
    inversion Hall1 as [|? ? N2 Hall2]; subst.
    inversion Hall2 as [|? ? N3 Hall3]; subst.
    inversion Hall3 as [|? ? N4 _]; subst.
    simpl in N2.
    simpl in Hin. destruct Hin as [<- | [<- | [<- | [<- | []]]]]; congruence.
Qed.

Lemma report_of_a_run_witness :
  exists players hp rds stats rep,
    run_trading_simulation (RS := fixed_source 0) 1 1 tt
      = Some (players, hp, rds, tt) /\
    analyze_results players hp rds = Some (stats, rep) /\
    total_house_profit rep = report_total_fees rep /\
    total_liquidation_events rep = 0%Z /\
    house_edge rep < 100.
Proof.
  destruct zero_round_report as (players & hp & rds & stats & rep & E & Ea).
  exists players, hp, rds, stats, rep. split; [exact E|]. split; [exact Ea|].
  destruct (report_of_a_run (RS := fixed_source 0) (RL := zero_laws)
              _ _ _ _ _ _ _ _ _ E Ea) as (H1 & H2 & H3 & _).
  auto.
Defined.

(** X25. Under the laws of the random source a run of at most 2^32
    rounds, with any number of players, returns: no candle index is out of
    range, no division is by zero and every round index is a seed numpy
    accepts, in the generator, the strategies and the round loop. *)
Theorem run_never_raises (RS : RandomSource) (RL : RandomLaws RS) n k g :
  (n <= 4294967296)%Z ->
  exists players hp rds g',
    run_trading_simulation n k g = Some (players, hp, rds, g').
Proof.
  intros Hn.
  destruct (run_trading_simulation_total n k g Hn) as ([[players hp] rds] & g' & E).
  exists players, hp, rds, g'. exact E.
Qed.

Lemma run_never_raises_witness :
  exists players hp rds g',
    run_trading_simulation (RS := fixed_source 0) 3 2 tt
      = Some (players, hp, rds, g').
Proof.
  apply (run_never_raises (fixed_source 0) zero_laws 3 2 tt). lia.
Defined.

(** A non-zero seed numpy refuses makes the generator raise, and with it
    the round that passes it. *)
Lemma generate_refused_seed (RS : RandomSource) n g :
  (n < 0 \/ 4294967295 < n)%Z ->
  generate_realistic_price_data (Some n) g = None.
Proof.
  intros Hn. rewrite generate_from_start.
  assert (E : seed_accepted (Some n) = false).
  { simpl. apply andb_false_iff.
    destruct Hn; [left; apply Z.leb_gt | right; apply Z.leb_gt]; lia. }
  rewrite E. reflexivity.
Qed.
